(** * Courtbot database manager ([src/utils/db/manager.js])

    A shallow embedding of the table-provisioning, batch-insert and
    connection-lifecycle code of the courtbot database manager, together
    with the properties its specification states about it.

    The module talks to three collaborators that are not part of it: the
    query builder with its SQL engine, the connection pool, and the logger.
    They are represented by a small explicit state (the [world]): the
    database, the pool, the log, and the journal of the statements that
    reached the engine.  Which statements the engine refuses (privileges,
    constraint violations) is left open: it is the variable [rejects] of
    the sections below, so every result holds for every such engine. *)

From stdpp Require Import gmap strings list fin_maps.
From Stdlib Require Import ZArith Lia Ascii.

Open Scope string_scope.
Open Scope Z_scope.

(** ** JavaScript values and errors *)

Module Js.

(** The values that flow through the manager. *)
Inductive value :=
| Undefined
| Null
| Bool (b : bool)
| Num (z : Z)
| Str (s : string)
| Conn (id : nat).

#[global] Instance value_eq_dec : EqDecision value.
Proof. solve_decision. Defined.

(** [!v] is [negb (truthy v)]. *)
Definition truthy (v : value) : bool :=
  match v with
  | Undefined | Null => false
  | Bool b => b
  | Num z => negb (z =? 0)
  | Str s => negb (String.eqb s EmptyString)
  | Conn _ => true
  end.

(** [v == null]: loose equality with [null] holds for [null] and
    [undefined] only. *)
Definition loose_eq_null (v : value) : bool :=
  match v with
  | Undefined | Null => true
  | _ => false
  end.


(** The i-th actual argument of a call; a missing argument reads as
    [undefined]. *)
Definition arg (i : nat) (args : list value) : value :=
  nth i args Undefined.

End Js.

(** ** Table definitions *)

Module Schema.

Inductive ColumnType :=
| TString (len : Z)
| TTimestamp
| TInteger
| TBoolean
| TEnum (allowed : list string)
| TIncrements.

Inductive Default :=
| NoDefault
| DefaultBool (b : bool)
| DefaultNow.

Record ColumnSpec := mkColumn {
  col_name : string;
  col_type : ColumnType;
  col_nullable : bool;
  col_default : Default
}.

Inductive OnDelete := Cascade | Restrict | NoAction.

Record FKSpec := mkFK {
  fk_columns : list string;
  fk_referencesTable : string;
  fk_referencesColumns : list string;
  fk_onDelete : OnDelete
}.

Record TableDefinition := mkTable {
  td_name : string;
  td_columns : list ColumnSpec;
  td_primaryKey : list string;
  td_foreignKeys : list FKSpec;
  td_indexes : list (list string)
}.

(** One statement of the callback handed to [knex.schema.createTable]:
    a column method, possibly followed by [.defaultTo(...)], or a
    table-level constraint. *)
Inductive BuilderCall :=
| b_string (name : string) (len : option Z) (dflt : Default)
| b_timestamp (name : string) (dflt : Default)
| b_boolean (name : string) (dflt : Default)
| b_integer (name : string)
| b_enu (name : string) (allowed : list string)
| b_increments
| b_timestamps (useTimestampType makeDefaultNow : bool)
| b_primary (cols : list string)
| b_index (cols : list string)
| b_foreign (cols : list string) (onDelete : OnDelete)
            (references : list string) (inTable : string).

(** What the schema builder makes of one call.  A string column without a
    length gets 255 characters; [increments()] without a name adds the
    auto-incrementing primary key [id]; [timestamps(true, true)] adds
    [created_at] and [updated_at], not nullable, defaulting to now. *)
Definition apply_call (c : BuilderCall) (t : TableDefinition) : TableDefinition :=
  let add_col col :=
    mkTable (td_name t) (td_columns t ++ [col]) (td_primaryKey t)
            (td_foreignKeys t) (td_indexes t) in
  match c with
  | b_string n len d => add_col (mkColumn n (TString (default 255 len)) true d)
  | b_timestamp n d => add_col (mkColumn n TTimestamp true d)
  | b_boolean n d => add_col (mkColumn n TBoolean true d)
  | b_integer n => add_col (mkColumn n TInteger true NoDefault)
  | b_enu n vs => add_col (mkColumn n (TEnum vs) true NoDefault)
  | b_increments =>
      mkTable (td_name t)
              (td_columns t ++ [mkColumn "id" TIncrements false NoDefault])
              (td_primaryKey t ++ ["id"]) (td_foreignKeys t) (td_indexes t)
  | b_timestamps _ now =>
      let d := if now then DefaultNow else NoDefault in
      mkTable (td_name t)
              (td_columns t ++ [mkColumn "created_at" TTimestamp (negb now) d;
                                mkColumn "updated_at" TTimestamp (negb now) d])
              (td_primaryKey t) (td_foreignKeys t) (td_indexes t)
  | b_primary cols =>
      mkTable (td_name t) (td_columns t) (td_primaryKey t ++ cols)
              (td_foreignKeys t) (td_indexes t)
  | b_index cols =>
      mkTable (td_name t) (td_columns t) (td_primaryKey t)
              (td_foreignKeys t) (td_indexes t ++ [cols])
  | b_foreign cols od refs tbl =>
      mkTable (td_name t) (td_columns t) (td_primaryKey t)
              (td_foreignKeys t ++ [mkFK cols tbl refs od]) (td_indexes t)
  end.

(** The definition a builder callback produces for the table [name]. *)
Definition build (name : string) (calls : list BuilderCall) : TableDefinition :=
  fold_left (fun t c => apply_call c t) calls (mkTable name [] [] [] []).

Definition column (t : TableDefinition) (n : string) : option ColumnSpec :=
  List.find (fun c => String.eqb (col_name c) n) (td_columns t).

Definition column_type (t : TableDefinition) (n : string) : option ColumnType :=
  col_type <$> column t n.

Definition column_default (t : TableDefinition) (n : string) : option Default :=
  col_default <$> column t n.

End Schema.

(** ** The registry of creation instructions *)

Module Registry.
Import Schema.

(** One method of [createTableInstructions]: it asks whether [i_table]
    exists and, if not, creates it with the callback [i_builder]. *)
Record Instruction := mkInstruction {
  i_table : string;
  i_builder : list BuilderCall
}.

Definition hearings : Instruction :=
  mkInstruction "hearings"
    [ b_string "defendant" (Some 100) NoDefault;
      b_timestamp "date" NoDefault;
      b_string "room" (Some 100) NoDefault;
      b_string "case_id" (Some 100) NoDefault;
      b_string "type" (Some 100) NoDefault;
      b_primary ["case_id"; "date"];
      b_index ["case_id"] ].

Definition requests : Instruction :=
  mkInstruction "requests"
    [ b_timestamps true true;
      b_string "case_id" (Some 100) NoDefault;
      b_string "phone" (Some 100) NoDefault;
      b_boolean "known_case" (DefaultBool false);
      b_boolean "active" (DefaultBool true);
      b_primary ["case_id"; "phone"] ].

Definition notifications : Instruction :=
  mkInstruction "notifications"
    [ b_timestamp "created_at" DefaultNow;
      b_string "case_id" None NoDefault;
      b_string "phone" None NoDefault;
      b_timestamp "event_date" NoDefault;
      b_enu "type" ["reminder"; "matched"; "expired"];
      b_string "error" None NoDefault;
      b_foreign ["case_id"; "phone"] Cascade ["case_id"; "phone"] "requests" ].

Definition log_runners : Instruction :=
  mkInstruction "log_runners"
    [ b_increments;
      b_enu "runner" ["send_reminder"; "send_expired"; "send_matched"; "load"];
      b_integer "count";
      b_integer "error_count";
      b_timestamp "date" DefaultNow ].

Definition log_hits : Instruction :=
  mkInstruction "log_hits"
    [ b_timestamp "time" DefaultNow;
      b_string "path" None NoDefault;
      b_string "method" None NoDefault;
      b_string "status_code" None NoDefault;
      b_string "phone" None NoDefault;
      b_string "body" None NoDefault;
      b_string "action" None NoDefault ].

(** The own properties of the object literal, in source order. *)
Definition createTableInstructions : list (string * Instruction) :=
  [ ("hearings", hearings);
    ("requests", requests);
    ("notifications", notifications);
    ("log_runners", log_runners);
    ("log_hits", log_hits) ].

Definition registered_names : list string := createTableInstructions.*1.

Definition definition_of (i : Instruction) : TableDefinition :=
  build (i_table i) (i_builder i).

(** [definitionFor(name)]: the definition registered under [name]. *)
Definition definitionFor (name : string) : option TableDefinition :=
  definition_of <$> (list_to_map createTableInstructions : gmap string Instruction) !! name.

(** The object literal inherits from [Object.prototype]; these are the
    property names it answers to without owning them. *)
Definition object_prototype_names : list string :=
  [ "constructor"; "toString"; "toLocaleString"; "valueOf";
    "hasOwnProperty"; "isPrototypeOf"; "propertyIsEnumerable";
    "__proto__"; "__defineGetter__"; "__defineSetter__";
    "__lookupGetter__"; "__lookupSetter__" ].

(** The result of the property read [createTableInstructions[name]]. *)
Inductive Property :=
| Own (i : Instruction)
| Inherited
| Missing.

Definition get (name : string) : Property :=
  match (list_to_map createTableInstructions : gmap string Instruction) !! name with
  | Some i => Own i
  | None =>
      if bool_decide (name ∈ object_prototype_names) then Inherited else Missing
  end.

(** Truthiness of the property read: only a missing property reads as
    [undefined]. *)
Definition get_truthy (name : string) : bool :=
  match get name with
  | Missing => false
  | _ => true
  end.

End Registry.

(** ** The collaborators: engine, pool and logger *)

Module Env.
Import Schema.

(** A row is a JavaScript object: column names with their values. *)
Definition Row := list (string * Js.value).

Record Table := mkStored {
  t_def : TableDefinition;
  t_rows : list Row
}.

(** What reaches the SQL engine. *)
Inductive Statement :=
| HasTable (name : string)
| CreateTable (def : TableDefinition)
| DropTableIfExists (name : string)
| Insert (table : string) (rows : list Row)
| Begin
| Commit
| Rollback.

Inductive Error :=
| TypeError (msg : string)
| Refused (s : Statement)
| RelationExists (name : string)
| RelationMissing (name : string)
| ForeignKeyTargetMissing (table target : string)
| PoolDestroyed.

(** Modelled from the spec: the connection pool behind [knex.client]
    (section 4.4): connections are idle in the pool or checked out;
    destroying the pool leaves no connection behind. *)
Record Pool := mkPool {
  p_destroyed : bool;
  p_idle : gset nat;
  p_used : gset nat
}.

Inductive LogArg :=
| LStr (s : string)
| LNum (z : Z)
| LErr (e : Error).

Inductive Level := DebugLevel | ErrorLevel.

Record LogEntry := mkLog {
  l_level : Level;
  l_args : list LogArg
}.

Record World := mkWorld {
  db : gmap string Table;
  pool : Pool;
  log : list LogEntry;
  journal : list Statement
}.

Definition set_db (d : gmap string Table) (w : World) : World :=
  mkWorld d (pool w) (log w) (journal w).

Definition set_pool (p : Pool) (w : World) : World :=
  mkWorld (db w) p (log w) (journal w).

Definition record (s : Statement) (w : World) : World :=
  mkWorld (db w) (pool w) (log w) (journal w ++ [s]).

Definition write_log (e : LogEntry) (w : World) : World :=
  mkWorld (db w) (pool w) (log w ++ [e]) (journal w).

(** [logger.debug(...)] and [logger.error(...)]: one entry each. *)
Definition logger_debug (args : list LogArg) : World -> World :=
  write_log (mkLog DebugLevel args).

Definition logger_error (args : list LogArg) : World -> World :=
  write_log (mkLog ErrorLevel args).

Definition has_table (name : string) (d : gmap string Table) : bool :=
  bool_decide (is_Some (d !! name)).

(** The first foreign key of [def] whose target table is absent. *)
Definition missing_fk_target (def : TableDefinition) (d : gmap string Table)
  : option string :=
  List.find (fun t => negb (has_table t d))
            (map fk_referencesTable (td_foreignKeys def)).

Definition add_rows (rows : list Row) (t : Table) : Table :=
  mkStored (t_def t) (t_rows t ++ rows).

(** The database with [rows] appended to [table]. *)
Definition append_rows (table : string) (rows : list Row)
    (d : gmap string Table) : gmap string Table :=
  match d !! table with
  | Some t => <[table := add_rows rows t]> d
  | None => d
  end.

(** The foreign keys the schema builder manages to add, one after the
    other, before it meets one whose target table is absent. *)
Fixpoint added_foreign_keys (fks : list FKSpec) (d : gmap string Table)
  : list FKSpec :=
  match fks with
  | [] => []
  | fk :: rest =>
      if has_table (fk_referencesTable fk) d
      then fk :: added_foreign_keys rest d
      else []
  end.

(** The table a creation leaves behind when a foreign key fails: created,
    with the foreign keys added before the failing one. *)
Definition half_made (def : TableDefinition) (d : gmap string Table)
  : TableDefinition :=
  mkTable (td_name def) (td_columns def) (td_primaryKey def)
          (added_foreign_keys (td_foreignKeys def) d) (td_indexes def).

(** The database after a creation that failed with [e]: a failed foreign
    key leaves the half-made table, any other failure leaves nothing. *)
Definition left_behind (def : TableDefinition) (e : Error)
    (d : gmap string Table) : gmap string Table :=
  match e with
  | ForeignKeyTargetMissing _ _ =>
      <[td_name def := mkStored (half_made def d) []]> d
  | _ => d
  end.

(** Modelled from the spec: pool operations of section 4.4.  Releasing
    hands a checked-out connection back; a handle that is not checked out
    is left to the pool's own contract and changes nothing here. *)
Definition pool_destroy (p : Pool) : Pool := mkPool true ∅ ∅.

Definition pool_release (c : nat) (p : Pool) : Pool :=
  if bool_decide (c ∈ p_used p)
  then mkPool (p_destroyed p) (p_idle p ∪ {[c]}) (p_used p ∖ {[c]})
  else p.

Definition pool_acquire (p : Pool) : option (nat * Pool) :=
  if p_destroyed p then None
  else
    let c := match elements (p_idle p) with
             | c :: _ => c
             | [] => fresh (p_used p)
             end in
    Some (c, mkPool false (p_idle p ∖ {[c]}) (p_used p ∪ {[c]})).

End Env.

(** ** Promises *)

Module Promise.
Import Env.

Inductive Settled :=
| Fulfilled (v : Js.value)
| Rejected (e : Error).

(** A promise is represented by the computation that settles it: run on
    the state at the time it starts, it gives the settlement and the state
    at the time it settles.  [S] is the state the computation works on. *)
Definition Promise (S : Type) := S -> Settled * S.

(** How a function called with the state [S] ends: it throws, returns a
    plain value, or returns a promise. *)
Inductive Completion (S : Type) :=
| Throw (e : Error)
| ReturnValue (v : Js.value)
| ReturnPromise (p : Promise S).

Arguments Throw {S} e.
Arguments ReturnValue {S} v.
Arguments ReturnPromise {S} p.

(** A callback: a function of one argument that may act on the state
    before it returns. *)
Definition Callback (S A : Type) := A -> S -> Completion S * S.

(** Promise resolution of a callback's completion: a thrown error rejects,
    a value fulfils, a returned promise is adopted. *)
Definition adopt {S} (c : Completion S) : Promise S :=
  fun s =>
    match c with
    | Throw e => (Rejected e, s)
    | ReturnValue v => (Fulfilled v, s)
    | ReturnPromise p => p s
    end.

Definition resolve {S} (v : Js.value) : Promise S :=
  fun s => (Fulfilled v, s).

Definition reject {S} (e : Error) : Promise S :=
  fun s => (Rejected e, s).

(** [p.then(cb)]: [cb] runs once [p] is fulfilled; a rejection passes
    through. *)
Definition then_ {S} (p : Promise S) (cb : Callback S Js.value) : Promise S :=
  fun s =>
    match p s with
    | (Fulfilled v, s1) => let '(c, s2) := cb v s1 in adopt c s2
    | (Rejected e, s1) => (Rejected e, s1)
    end.

(** [p.catch(cb)]: [cb] runs once [p] is rejected; a fulfilment passes
    through. *)
Definition catch_ {S} (p : Promise S) (cb : Callback S Error) : Promise S :=
  fun s =>
    match p s with
    | (Fulfilled v, s1) => (Fulfilled v, s1)
    | (Rejected e, s1) => let '(c, s2) := cb e s1 in adopt c s2
    end.

(** The method call [r.catch(cb)] on whatever a function returned: only a
    promise has the method. *)
Definition dot_catch {S} (r : Completion S) (cb : Callback S Error)
  : Completion S :=
  match r with
  | Throw e => Throw e
  | ReturnValue _ => Throw (TypeError "catch is not a function")
  | ReturnPromise p => ReturnPromise (catch_ p cb)
  end.


End Promise.

(** ** The query builder *)

Module Knex.
Import Schema Env Promise.

Section Engine.

(** [rejects s d]: the engine refuses the statement [s] in the database
    state [d] (missing privilege, violated constraint, ...).  It is
    consulted for the statements that write: DDL and inserts. *)
Variable rejects : Statement -> gmap string Table -> bool.

(** Modelled from the spec: the engine's answer to the creation of a
    table (sections 3 and 7).  The schema builder sends [CREATE TABLE]
    first and each foreign key afterwards, with a statement of its own and
    outside any transaction.  So the creation fails, in this order, when
    the table exists, when the engine refuses the statement, or when a
    foreign key points to an absent table (the creation failure of
    section 3). *)
Definition create_error (def : TableDefinition) (d : gmap string Table)
  : option Error :=
  if has_table (td_name def) d then Some (RelationExists (td_name def))
  else if rejects (CreateTable def) d then Some (Refused (CreateTable def))
  else
    match missing_fk_target def d with
    | Some target => Some (ForeignKeyTargetMissing (td_name def) target)
    | None => None
    end.

(** Modelled from the spec: the engine's answer to an insert of one chunk
    (section 7, chunk failure): it fails on an absent table or when the
    engine refuses the rows. *)
Definition insert_error (table : string) (rows : list Row)
    (d : gmap string Table) : option Error :=
  if negb (has_table table d) then Some (RelationMissing table)
  else if rejects (Insert table rows) d then Some (Refused (Insert table rows))
  else None.

(** Modelled from the spec: the SQL engine the manager calls into
    (sections 1 and 6).  It runs one statement; every statement is
    journalled. *)
Definition execute (s : Statement) : Promise World :=
  fun w =>
    let w1 := record s w in
    match s with
    | HasTable name => (Fulfilled (Js.Bool (has_table name (db w))), w1)
    | CreateTable def =>
        match create_error def (db w) with
        | Some e => (Rejected e, set_db (left_behind def e (db w)) w1)
        | None =>
            (Fulfilled Js.Undefined,
             set_db (<[td_name def := mkStored def []]> (db w)) w1)
        end
    | DropTableIfExists name =>
        if rejects s (db w) then (Rejected (Refused s), w1)
        else (Fulfilled Js.Undefined, set_db (delete name (db w)) w1)
    | Insert table rows =>
        match insert_error table rows (db w) with
        | Some e => (Rejected e, w1)
        | None =>
            (Fulfilled Js.Undefined,
             set_db (append_rows table rows (db w)) w1)
        end
    | Begin | Commit | Rollback => (Fulfilled Js.Undefined, w1)
    end.

(** [knex.schema.hasTable(name)] *)
Definition schema_hasTable (name : string) : Promise World :=
  execute (HasTable name).

(** [knex.schema.createTable(name, callback)] *)
Definition schema_createTable (name : string) (callback : list BuilderCall)
  : Promise World :=
  execute (CreateTable (build name callback)).

(** [knex.schema.dropTableIfExists(name)] *)
Definition schema_dropTableIfExists (name : string) : Promise World :=
  execute (DropTableIfExists name).

(** *** Transactions *)

(** The state a transaction handler works on: the world, the database as
    it was at [BEGIN], and the settlement of the promise that
    [knex.transaction] returned, once [commit] or [rollback] fixed it. *)
Record TxState := mkTx {
  tx_world : World;
  tx_snapshot : gmap string Table;
  tx_outcome : option Settled
}.

(** A query sent through the transaction. *)
Definition tx_execute (s : Statement) : Promise TxState :=
  fun st =>
    let '(r, w) := execute s (tx_world st) in
    (r, mkTx w (tx_snapshot st) (tx_outcome st)).

(** Modelled from the spec: [trx.commit(value)] (section 4.3) commits and
    fulfils the transaction's promise with [value].  On a completed
    transaction it changes nothing. *)
Definition trx_commit (v : Js.value) : Promise TxState :=
  fun st =>
    match tx_outcome st with
    | Some _ => (Fulfilled Js.Undefined, st)
    | None =>
        (Fulfilled Js.Undefined,
         mkTx (record Commit (tx_world st)) (tx_snapshot st)
              (Some (Fulfilled v)))
    end.

(** Modelled from the spec: [trx.rollback(error)] (sections 4.3 and 7)
    restores the database of [BEGIN] and rejects the transaction's promise
    with [error].  On a completed transaction it changes nothing. *)
Definition trx_rollback (e : Error) : Promise TxState :=
  fun st =>
    match tx_outcome st with
    | Some _ => (Fulfilled Js.Undefined, st)
    | None =>
        (Fulfilled Js.Undefined,
         mkTx (record Rollback (set_db (tx_snapshot st) (tx_world st)))
              (tx_snapshot st) (Some (Rejected e)))
    end.

(** Consecutive slices of at most [n] elements. *)
Fixpoint chunk_fuel {A} (fuel n : nat) (l : list A) : list (list A) :=
  match fuel with
  | O => []
  | S fuel' =>
      match l with
      | [] => []
      | _ => take n l :: chunk_fuel fuel' n (drop n l)
      end
  end.

Definition chunk {A} (n : nat) (l : list A) : list (list A) :=
  chunk_fuel (length l) n l.

(** The chunks are inserted one after the other; the first failure
    rejects. *)
Fixpoint insert_chunks (table : string) (chunks : list (list Row))
  : Promise TxState :=
  match chunks with
  | [] => resolve Js.Undefined
  | c :: rest =>
      fun st =>
        match tx_execute (Insert table c) st with
        | (Fulfilled _, st1) => insert_chunks table rest st1
        | (Rejected e, st1) => (Rejected e, st1)
        end
  end.

(** Modelled from the spec: [trx.batchInsert(table, rows, chunkSize)]
    (section 4.3) splits [rows] into chunks of at most [chunkSize] and
    inserts them through the transaction; a chunk size below one is
    rejected, with a [TypeError] thrown at the call. *)
Definition trx_batchInsert (table : string) (rows : list Row) (chunkSize : Z)
  : Error + Promise TxState :=
  if chunkSize <? 1 then inl (TypeError "Invalid chunkSize")
  else inr (insert_chunks table (chunk (Z.to_nat chunkSize) rows)).

(** Modelled from the spec: [knex.transaction(handler)] (section 4.3).
    The handler runs between [BEGIN] and the completion.  A handler that
    throws counts as a rejected promise.  When the handler's promise
    settles and the transaction is still open, it is committed on
    fulfilment and rolled back on rejection.  The returned promise settles
    as [commit] or [rollback] decided. *)
Definition transaction (handler : Error + Promise TxState) : Promise World :=
  fun w =>
    let st0 := mkTx (record Begin w) (db w) None in
    let result := match handler with
                  | inl e => reject e
                  | inr p => p
                  end in
    let '(r, st1) := result st0 in
    let '(_, st2) := match r with
                     | Fulfilled v => trx_commit v st1
                     | Rejected e => trx_rollback e st1
                     end in
    match tx_outcome st2 with
    | Some o => (o, tx_world st2)
    | None => (r, tx_world st2)
    end.

(** *** The connection pool *)

(** [knex.client.acquireConnection()] *)
Definition client_acquireConnection : Promise World :=
  fun w =>
    match pool_acquire (pool w) with
    | Some (c, p) => (Fulfilled (Js.Conn c), set_pool p w)
    | None => (Rejected PoolDestroyed, w)
    end.

(** [knex.client.pool.destroy()] *)
Definition client_pool_destroy : Promise World :=
  fun w => (Fulfilled Js.Undefined, set_pool (pool_destroy (pool w)) w).

(** [knex.client.releaseConnection(conn)]; only a connection handle names
    a connection of the pool. *)
Definition client_releaseConnection (conn : Js.value) : Promise World :=
  fun w =>
    match conn with
    | Js.Conn c => (Fulfilled Js.Undefined, set_pool (pool_release c (pool w)) w)
    | _ => (Fulfilled Js.Undefined, w)
    end.

End Engine.
End Knex.

(** ** The manager *)

Module Manager.
Import Schema Env Promise Knex.

(** A call of an exported function: it acts on the world and returns. *)
Definition Call := World -> Completion World * World.

(** Calling a function and waiting for what it returned. *)
Definition await (f : Call) : Promise World :=
  fun w => let '(c, w1) := f w in adopt c w1.

Definition dquote : string := String "034"%char EmptyString.

Definition msg_no_instructions (table : string) : string :=
  "No Table Creation Instructions found for table " ++ dquote ++ table
  ++ dquote ++ ".".

Definition msg_already_exists (table : string) : string :=
  "Table " ++ dquote ++ table ++ dquote ++ " already exists.  Will not create.".

Definition msg_created (table : string) : string :=
  "Table created: " ++ dquote ++ table ++ dquote.

Definition msg_dropped (table : string) : string :=
  "Dropped existing table " ++ dquote ++ table ++ dquote.

Section Manager.

Variable rejects : Statement -> gmap string Table -> bool.

(** A method of [createTableInstructions], called. *)
Definition run_instruction (i : Registry.Instruction) : Promise World :=
  then_ (schema_hasTable rejects (Registry.i_table i))
    (fun exists_ w =>
       if negb (Js.truthy exists_)
       then (ReturnPromise
               (schema_createTable rejects (Registry.i_table i)
                                   (Registry.i_builder i)), w)
       else (ReturnValue Js.Undefined, w)).

(** The handler [trx => trx.batchInsert(table, rows, size)
    .then(trx.commit).catch(trx.rollback)]. *)
Definition batchInsert_handler (table : string) (rows : list Row) (size : Z)
  : Error + Promise TxState :=
  match trx_batchInsert rejects table rows size with
  | inl e => inl e
  | inr p =>
      inr (catch_ (then_ p (fun v st => (ReturnPromise (trx_commit v), st)))
                  (fun e st => (ReturnPromise (trx_rollback e), st)))
  end.

Definition batchInsert (table : string) (rows : list Row) (size : Z) : Call :=
  fun w =>
    let w1 := logger_debug [LStr "batch inserting";
                            LNum (Z.of_nat (length rows)); LStr "rows"] w in
    (ReturnPromise (transaction (batchInsert_handler table rows size)), w1).

Definition acquireSingleConnection : Call :=
  fun w => (ReturnPromise client_acquireConnection, w).

Definition closeConnection (conn : Js.value) : Call :=
  fun w =>
    if Js.loose_eq_null conn
    then (ReturnPromise client_pool_destroy, w)
    else (ReturnPromise (client_releaseConnection conn), w).

(** [closeConnection] called with the actual arguments [args]. *)
Definition closeConnection_call (args : list Js.value) : Call :=
  closeConnection (Js.arg 0 args).

Definition createTable (table : string) : Call :=
  fun w =>
    if negb (Registry.get_truthy table)
    then (ReturnValue (Js.Bool false),
          logger_error [LStr (msg_no_instructions table)] w)
    else
      (ReturnPromise
         (then_ (schema_hasTable rejects table)
            (fun exists_ w1 =>
               if Js.truthy exists_
               then (ReturnValue Js.Undefined,
                     logger_debug [LStr (msg_already_exists table)] w1)
               else
                 match Registry.get table with
                 | Registry.Own i =>
                     (ReturnPromise
                        (then_ (run_instruction i)
                           (fun _ w2 =>
                              (ReturnValue Js.Undefined,
                               logger_debug [LStr (msg_created table)] w2))),
                      w1)
                 | Registry.Inherited =>
                     (Throw (TypeError "then is not a function"), w1)
                 | Registry.Missing =>
                     (Throw (TypeError "not a function"), w1)
                 end)),
       w).

Definition dropTable (table : string) : Call :=
  fun w =>
    (ReturnPromise
       (then_ (schema_dropTableIfExists rejects table)
          (fun _ w1 =>
             (ReturnValue Js.Undefined,
              logger_debug [LStr (msg_dropped table)] w1))),
     w).

(** The reducer [(p, v) => p.then(() => createTable(v)
    .catch(err => logger.error(err)))]. *)
Definition ensure_step (p : Promise World) (v : string) : Promise World :=
  then_ p
    (fun _ w =>
       let '(r, w1) := createTable v w in
       (dot_catch r
          (fun err w2 => (ReturnValue Js.Undefined, logger_error [LErr err] w2)),
        w1)).

(** [tables.reduce(reducer, Promise.resolve())] *)
Definition ensure_over (names : list string) : Promise World :=
  fold_left ensure_step names (resolve Js.Undefined).

Definition tables : list string :=
  ["requests"; "hearings"; "notifications"; "log_runners"; "log_hits"].

Definition ensureTablesExist : Call :=
  fun w => (ReturnPromise (ensure_over tables), w).

End Manager.
End Manager.

(** ** What a run leaves behind *)

Module Outcome.
Import Schema Env Promise Knex Manager.

(** A world with an empty database, a fresh pool, and nothing logged. *)
Definition empty_world : World := mkWorld ∅ (mkPool false ∅ ∅) [] [].

(** An engine that refuses nothing. *)
Definition accepts_all : Statement -> gmap string Table -> bool :=
  fun _ _ => false.

(** An engine that refuses to create the table [name], and nothing else. *)
Definition refuses_create (name : string)
  : Statement -> gmap string Table -> bool :=
  fun s _ =>
    match s with
    | CreateTable def => String.eqb (td_name def) name
    | _ => false
    end.

(** An engine that refuses every insert that contains the row [bad]. *)
Definition refuses_row (bad : Row) : Statement -> gmap string Table -> bool :=
  fun s _ =>
    match s with
    | Insert _ rows => bool_decide (bad ∈ rows)
    | _ => false
    end.

(** How one table fared in a provisioning pass. *)
Inductive Attempt :=
| Skipped
| Created
| Failed (e : Error).

Section Attempts.

Variable rejects : Statement -> gmap string Table -> bool.

Definition attempt (name : string) (def : TableDefinition)
    (d : gmap string Table) : Attempt :=
  if has_table name d then Skipped
  else
    match create_error rejects def d with
    | None => Created
    | Some e => Failed e
    end.

(** The statements one attempt sends to the engine: the existence check
    of [createTable] and, for an absent table, the check and the DDL of
    the creation instruction. *)
Definition attempt_journal (name : string) (def : TableDefinition)
    (a : Attempt) : list Statement :=
  match a with
  | Skipped => [HasTable name]
  | Created | Failed _ => [HasTable name; HasTable name; CreateTable def]
  end.

(** The one line an attempt logs. *)
Definition attempt_log (name : string) (a : Attempt) : LogEntry :=
  match a with
  | Skipped => mkLog DebugLevel [LStr (msg_already_exists name)]
  | Created => mkLog DebugLevel [LStr (msg_created name)]
  | Failed e => mkLog ErrorLevel [LErr e]
  end.

Definition attempt_db (name : string) (def : TableDefinition) (a : Attempt)
    (d : gmap string Table) : gmap string Table :=
  match a with
  | Created => <[name := mkStored def []]> d
  | Skipped => d
  | Failed e => left_behind def e d
  end.

Definition after_attempt (name : string) (def : TableDefinition)
    (a : Attempt) (w : World) : World :=
  mkWorld (attempt_db name def a (db w)) (pool w)
          (log w ++ [attempt_log name a])
          (journal w ++ attempt_journal name def a).

(** The definition registered under [name] (the empty definition for an
    unregistered name). *)
Definition def_of (name : string) : TableDefinition :=
  default (mkTable name [] [] [] []) (Registry.definitionFor name).

(** One step of a provisioning pass, as a function on worlds. *)
Definition provision (w : World) (name : string) : World :=
  after_attempt name (def_of name) (attempt name (def_of name) (db w)) w.

(** The attempts of a pass over the tables [names], in order. *)
Fixpoint attempts (names : list string) (w : World) : list Attempt :=
  match names with
  | [] => []
  | t :: rest =>
      attempt t (def_of t) (db w) :: attempts rest (provision w t)
  end.

(** The body of the reducer's callback: [createTable(v).catch(...)],
    awaited. *)
Definition guarded_createTable (v : string) : Promise World :=
  fun w =>
    let '(r, w1) := createTable rejects v w in
    adopt (dot_catch r
             (fun err w2 =>
                (ReturnValue Js.Undefined, logger_error [LErr err] w2))) w1.

End Attempts.

Definition is_insert_into (table : string) (s : Statement) : bool :=
  match s with
  | Insert t _ => String.eqb t table
  | _ => false
  end.

Definition inserted_rows (s : Statement) : list Row :=
  match s with
  | Insert _ rows => rows
  | _ => []
  end.



End Outcome.

(** ** Checks on the registered definitions *)

Module Checks.
Import Schema Env Promise Knex Manager Outcome.

Definition column_names (t : TableDefinition) : list string :=
  map col_name (td_columns t).

(** Every name of [cols] is a column of [t]. *)
Definition columns_exist (t : TableDefinition) (cols : list string) : bool :=
  forallb (fun c => bool_decide (c ∈ column_names t)) cols.

(** The constraints of [t] speak of columns [t] has, no column is declared
    twice, and a foreign key pairs as many columns as it references. *)
Definition well_formed (t : TableDefinition) : bool :=
  bool_decide (NoDup (column_names t))
  && columns_exist t (td_primaryKey t)
  && forallb (columns_exist t) (td_indexes t)
  && forallb (fun fk =>
                columns_exist t (fk_columns fk)
                && (length (fk_columns fk)
                    =? length (fk_referencesColumns fk))%nat)
             (td_foreignKeys t).

(** The foreign key points to a registered table and references exactly
    its primary key. *)
Definition references_primary_key (fk : FKSpec) : bool :=
  match Registry.definitionFor (fk_referencesTable fk) with
  | Some target => bool_decide (td_primaryKey target = fk_referencesColumns fk)
  | None => false
  end.

(** Every foreign key of [t] points to one of the tables [seen]. *)
Definition fk_targets_among (seen : list string) (t : TableDefinition) : bool :=
  forallb (fun fk => bool_decide (fk_referencesTable fk ∈ seen))
          (td_foreignKeys t).

(** In the order [names], after the tables [seen], every table comes after
    the tables its foreign keys point to. *)
Fixpoint fk_targets_before (seen names : list string) : bool :=
  match names with
  | [] => true
  | t :: rest =>
      fk_targets_among seen (def_of t) && fk_targets_before (t :: seen) rest
  end.

(** The statements a provisioning pass may send: existence checks and
    creations of the listed tables, with their registered definitions. *)
Definition provisioning_statement (names : list string) (s : Statement) : Prop :=
  exists n, n ∈ names /\ (s = HasTable n \/ s = CreateTable (def_of n)).

(** The first chunk the engine does not take, with its position and the
    error, when the chunks are inserted one after the other from the
    database [d] on. *)
Fixpoint first_failure (rejects : Statement -> gmap string Table -> bool)
    (table : string) (chunks : list (list Row)) (d : gmap string Table)
  : option (nat * Error) :=
  match chunks with
  | [] => None
  | c :: rest =>
      match insert_error rejects table c d with
      | Some e => Some (O, e)
      | None =>
          match first_failure rejects table rest (append_rows table c d) with
          | Some (k, e) => Some (S k, e)
          | None => None
          end
      end
  end.

(** [BEGIN], [COMMIT] and [ROLLBACK]. *)
Definition transaction_control (s : Statement) : bool :=
  match s with
  | Begin | Commit | Rollback => true
  | _ => false
  end.

(** The statements [body] sent inside a transaction hold no [BEGIN],
    [COMMIT] or [ROLLBACK], and the inserts among them are those of the
    chunks [cs] into [table], in order. *)
Definition carries_chunks (table : string) (cs : list (list Row))
    (body : list Statement) : Prop :=
  List.filter (is_insert_into table) body = map (Insert table) cs
  /\ forallb (fun s => negb (transaction_control s)) body = true.


(** A pool keeps a connection in one place only. *)
Definition pool_consistent (p : Pool) : Prop := p_idle p ## p_used p.

End Checks.

(** * Properties *)

Import Schema Env Promise Knex Manager Outcome Checks.

Open Scope list_scope.

(** ** The registry *)

Example get_requests : Registry.get "requests" = Registry.Own Registry.requests.
Proof. reflexivity. Qed.

Example get_unknown : Registry.get "nonexistent_table" = Registry.Missing.
Proof. reflexivity. Qed.

Example get_toString : Registry.get "toString" = Registry.Inherited.
Proof. reflexivity. Qed.

(** An own property of the registry is one of the five methods, and each
    method creates the table it is named after. *)
Lemma get_own_inv name i :
  Registry.get name = Registry.Own i ->
  (name, i) ∈ Registry.createTableInstructions.
Proof.
  unfold Registry.get.
  destruct (list_to_map Registry.createTableInstructions !! name) as [j|] eqn:E.
  - intros [= <-]. by apply elem_of_list_to_map_2 in E.
  - case_bool_decide; discriminate.
Qed.

Lemma get_own_table name i :
  Registry.get name = Registry.Own i -> Registry.i_table i = name.
Proof.
  intros H%get_own_inv. unfold Registry.createTableInstructions in H.
  repeat (apply elem_of_cons in H as [[= -> ->]|H]; [reflexivity|]).
  by apply elem_of_nil in H.
Qed.

Lemma get_own_def name i :
  Registry.get name = Registry.Own i -> def_of name = Registry.definition_of i.
Proof.
  unfold Registry.get, def_of, Registry.definitionFor.
  destruct (list_to_map Registry.createTableInstructions !! name) as [j|].
  - by intros [= <-].
  - case_bool_decide; discriminate.
Qed.

Lemma registered_get name :
  name ∈ Registry.registered_names -> ∃ i, Registry.get name = Registry.Own i.
Proof.
  unfold Registry.registered_names, Registry.createTableInstructions. simpl.
  intros H.
  repeat (apply elem_of_cons in H as [->|H]; [eexists; reflexivity|]).
  by apply elem_of_nil in H.
Qed.

Lemma def_of_name name i :
  Registry.get name = Registry.Own i -> td_name (def_of name) = name.
Proof.
  intros H. rewrite (get_own_def _ _ H).
  pose proof (get_own_inv _ _ H) as Hin.
  unfold Registry.createTableInstructions in Hin.
  repeat (apply elem_of_cons in Hin as [[= -> ->]|Hin]; [reflexivity|]).
  by apply elem_of_nil in Hin.
Qed.

(** C6: the registry holds exactly the five definitions requests,
    hearings, notifications, log_runners and log_hits.  hearings has the
    primary key (case_id, date) and an index on case_id; requests has the
    primary key (case_id, phone), known_case defaulting to false and active
    defaulting to true; notifications has no primary key, a foreign key
    (case_id, phone) into requests(case_id, phone) that cascades on delete,
    and a type among reminder, matched, expired; log_runners has an
    auto-increment primary key and a runner among send_reminder,
    send_expired, send_matched, load. *)
Theorem registry_has_the_five_definitions :
  Registry.registered_names ≡ₚ
    ["requests"; "hearings"; "notifications"; "log_runners"; "log_hits"]
  /\ length Registry.createTableInstructions = 5%nat
  /\ (td_primaryKey <$> Registry.definitionFor "hearings"
      = Some ["case_id"; "date"]
      /\ td_indexes <$> Registry.definitionFor "hearings"
         = Some [["case_id"]])
  /\ (td_primaryKey <$> Registry.definitionFor "requests"
      = Some ["case_id"; "phone"]
      /\ Registry.definitionFor "requests"
           ≫= (fun t => column_default t "known_case")
         = Some (DefaultBool false)
      /\ Registry.definitionFor "requests"
           ≫= (fun t => column_default t "active")
         = Some (DefaultBool true))
  /\ (td_primaryKey <$> Registry.definitionFor "notifications" = Some []
      /\ td_foreignKeys <$> Registry.definitionFor "notifications"
         = Some [mkFK ["case_id"; "phone"] "requests" ["case_id"; "phone"]
                      Cascade]
      /\ Registry.definitionFor "notifications"
           ≫= (fun t => column_type t "type")
         = Some (TEnum ["reminder"; "matched"; "expired"]))
  /\ (td_primaryKey <$> Registry.definitionFor "log_runners" = Some ["id"]
      /\ Registry.definitionFor "log_runners"
           ≫= (fun t => column_type t "id")
         = Some TIncrements
      /\ Registry.definitionFor "log_runners"
           ≫= (fun t => column_type t "runner")
         = Some (TEnum ["send_reminder"; "send_expired"; "send_matched";
                        "load"])).
Proof.
  split.
  { unfold Registry.registered_names. simpl.
    apply Permutation_swap. }
  repeat split; reflexivity.
Qed.

(** ** Closing connections *)


Lemma closeConnection_handle c w :
  await (closeConnection (Js.Conn c)) w
  = (Fulfilled Js.Undefined, set_pool (pool_release c (pool w)) w).
Proof. reflexivity. Qed.




(** A connection is acquired and handed back. *)
Example acquire_then_close :
  let '(r, w1) := await acquireSingleConnection empty_world in
  r = Fulfilled (Js.Conn 0)
  /\ pool w1 = mkPool false ∅ {[0%nat]}
  /\ pool (await (closeConnection (Js.Conn 0)) w1).2 = mkPool false {[0%nat]} ∅.
Proof. vm_compute. by repeat split. Qed.

(** C10: the test is [conn == null], so [undefined] takes the branch of
    [null]: a call with [undefined], or with no argument at all, destroys
    the pool as [closeConnection(null)] does and never reaches
    [releaseConnection]. *)
Theorem closeConnection_undefined_destroys (w : World) :
  closeConnection Js.Undefined w = (ReturnPromise client_pool_destroy, w)
  /\ closeConnection_call [] w = (ReturnPromise client_pool_destroy, w)
  /\ await (closeConnection Js.Undefined) w = await (closeConnection Js.Null) w
  /\ await (closeConnection_call []) w = await (closeConnection Js.Null) w
  /\ pool (snd (await (closeConnection_call []) w)) = mkPool true ∅ ∅.
Proof. by repeat split. Qed.

(** Any other value is passed on to [releaseConnection]. *)
Example closeConnection_zero_releases w :
  closeConnection (Js.Num 0) w
  = (ReturnPromise (client_releaseConnection (Js.Num 0)), w).
Proof. reflexivity. Qed.

(** ** Creating one table *)

Section CreateTable.

Variable rejects : Statement -> gmap string Table -> bool.

Lemma get_truthy_own name i :
  Registry.get name = Registry.Own i -> Registry.get_truthy name = true.
Proof. unfold Registry.get_truthy. by intros ->. Qed.

(** A name that reads as [undefined] in the registry: the error is logged
    and [false] is returned at once. *)
Lemma createTable_missing name w :
  Registry.get name = Registry.Missing ->
  createTable rejects name w
  = (ReturnValue (Js.Bool false),
     logger_error [LStr (msg_no_instructions name)] w).
Proof.
  intros H. unfold createTable, Registry.get_truthy. by rewrite H.
Qed.

(** Any other name gets a promise, and nothing has happened yet. *)
Lemma createTable_truthy name w :
  Registry.get_truthy name = true ->
  exists p, createTable rejects name w = (ReturnPromise p, w).
Proof.
  intros H. unfold createTable. rewrite H. simpl. by eexists.
Qed.

(** What awaiting [createTable] of a registered name does, by the three
    ways the attempt can go. *)
Lemma await_createTable_own name i w :
  Registry.get name = Registry.Own i ->
  await (createTable rejects name) w
  = match attempt rejects name (def_of name) (db w) with
    | Failed e =>
        (Rejected e,
         mkWorld (left_behind (def_of name) e (db w)) (pool w) (log w)
                 (journal w ++ attempt_journal name (def_of name) (Failed e)))
    | a => (Fulfilled Js.Undefined, after_attempt name (def_of name) a w)
    end.
Proof.
  intros Hget.
  pose proof (get_own_table _ _ Hget) as Htable.
  pose proof (get_own_def _ _ Hget) as Hdef.
  assert (Hb : build name (Registry.i_builder i) = def_of name).
  { rewrite Hdef. unfold Registry.definition_of. by rewrite Htable. }
  unfold await, createTable. rewrite (get_truthy_own _ _ Hget). simpl.
  unfold attempt, then_, schema_hasTable, execute. simpl.
  destruct (has_table name (db w)) eqn:Hex; simpl.
  { reflexivity. }
  rewrite Hget. simpl.
  unfold run_instruction, then_, schema_hasTable, schema_createTable, execute.
  simpl. rewrite Htable, Hex. simpl. rewrite !Hb.
  destruct (create_error rejects (def_of name) (db w)) as [e|] eqn:Herr; simpl.
  - unfold record, set_db. simpl. rewrite <- !app_assoc. reflexivity.
  - unfold after_attempt, logger_debug, write_log, set_db, record. simpl.
    rewrite (def_of_name _ _ Hget), <- !app_assoc. reflexivity.
Qed.

(** With the [catch] of the provisioning pass around it, the call always
    fulfils, and a failure leaves its line in the log. *)
Lemma guarded_createTable_own name i w :
  Registry.get name = Registry.Own i ->
  guarded_createTable rejects name w
  = (Fulfilled Js.Undefined, provision rejects w name).
Proof.
  intros Hget.
  pose proof (await_createTable_own name i w Hget) as Hrun.
  unfold await in Hrun. unfold guarded_createTable, provision.
  destruct (createTable_truthy name w (get_truthy_own _ _ Hget)) as [p Hp].
  rewrite Hp in *. simpl in *. unfold catch_. rewrite Hrun.
  destruct (attempt rejects name (def_of name) (db w)); reflexivity.
Qed.

End CreateTable.

(** ** The provisioning pass *)

Section Provisioning.

Variable rejects : Statement -> gmap string Table -> bool.

Lemma ensure_step_run p v w :
  ensure_step rejects p v w
  = match p w with
    | (Fulfilled _, w1) => guarded_createTable rejects v w1
    | (Rejected e, w1) => (Rejected e, w1)
    end.
Proof.
  unfold ensure_step, then_, guarded_createTable.
  destruct (p w) as [[x|e] w1]; [|reflexivity].
  by destruct (createTable rejects v w1).
Qed.

(** The reduction chains the steps: what was folded so far has settled
    before the rest begins, and a rejection skips the rest. *)
Lemma fold_ensure_step names : forall p w,
  fold_left (ensure_step rejects) names p w
  = match p w with
    | (Fulfilled x, w1) =>
        fold_left (ensure_step rejects) names (resolve x) w1
    | (Rejected e, w1) => (Rejected e, w1)
    end.
Proof.
  induction names as [|v rest IH]; intros p w; simpl.
  - by destruct (p w) as [[x|e] w1].
  - rewrite IH, ensure_step_run.
    destruct (p w) as [[x|e] w1]; [|reflexivity].
    by rewrite (IH (ensure_step rejects (resolve x) v)), ensure_step_run.
Qed.

Lemma ensure_over_app l1 l2 w :
  ensure_over rejects (l1 ++ l2) w
  = match ensure_over rejects l1 w with
    | (Fulfilled x, w1) =>
        fold_left (ensure_step rejects) l2 (resolve x) w1
    | (Rejected e, w1) => (Rejected e, w1)
    end.
Proof.
  unfold ensure_over. rewrite fold_left_app. apply fold_ensure_step.
Qed.

(** Over registered names the pass is the fold of [provision], and it
    fulfils. *)
Lemma fold_ensure_registered names :
  Forall (fun v => exists i, Registry.get v = Registry.Own i) names ->
  forall x w,
    fold_left (ensure_step rejects) names (resolve x) w
    = (Fulfilled (match names with [] => x | _ => Js.Undefined end),
       fold_left (provision rejects) names w).
Proof.
  induction 1 as [|v rest [i Hv] _ IH]; intros x w; simpl; [reflexivity|].
  rewrite fold_ensure_step, ensure_step_run. unfold resolve at 1.
  rewrite (guarded_createTable_own rejects v i w Hv), IH.
  by destruct rest.
Qed.

Lemma ensure_over_registered names w :
  Forall (fun v => exists i, Registry.get v = Registry.Own i) names ->
  ensure_over rejects names w
  = (Fulfilled Js.Undefined, fold_left (provision rejects) names w).
Proof.
  intros H. unfold ensure_over. rewrite (fold_ensure_registered _ H).
  by destruct names.
Qed.

Lemma tables_registered :
  Forall (fun v => exists i, Registry.get v = Registry.Own i)
         tables.
Proof. repeat constructor; eexists; reflexivity. Qed.

(** The journal and the log of a pass, attempt by attempt. *)
Lemma provision_pass_trace names : forall w,
  length (attempts rejects names w) = length names
  /\ journal (fold_left (provision rejects) names w)
     = journal w
       ++ concat (zip_with (fun t a => attempt_journal t (def_of t) a)
                           names (attempts rejects names w))
  /\ log (fold_left (provision rejects) names w)
     = log w ++ zip_with attempt_log names (attempts rejects names w).
Proof.
  induction names as [|t rest IH]; intros w; simpl.
  - by rewrite !app_nil_r.
  - destruct (IH (provision rejects w t)) as (Hlen & Hj & Hl).
    rewrite Hlen, Hj, Hl. unfold provision at 2 4, after_attempt. simpl.
    by rewrite <- !app_assoc.
Qed.

Lemma journal_provision w v :
  journal (provision rejects w v)
  = journal w
    ++ attempt_journal v (def_of v) (attempt rejects v (def_of v) (db w)).
Proof. reflexivity. Qed.

(** What a failed creation leaves behind is at most one more table. *)
Lemma left_behind_keeps_table t def e (d : gmap string Table) :
  has_table t d = true -> has_table t (left_behind def e d) = true.
Proof.
  unfold left_behind, has_table. intros H%bool_decide_eq_true.
  apply bool_decide_eq_true. destruct e; try done.
  destruct (decide (td_name def = t)) as [->|Hne].
  - rewrite lookup_insert_eq. by eexists.
  - by rewrite lookup_insert_ne.
Qed.

(** A pass never removes a table. *)
Lemma provision_keeps_table t v w :
  has_table t (db w) = true ->
  has_table t (db (provision rejects w v)) = true.
Proof.
  unfold provision, after_attempt, attempt_db. cbn [db]. intros H.
  destruct (attempt rejects v (def_of v) (db w)) as [| |e]; [exact H| |].
  - unfold has_table in *. apply bool_decide_eq_true in H.
    apply bool_decide_eq_true.
    destruct (decide (v = t)) as [->|Hne].
    + rewrite lookup_insert_eq. by eexists.
    + by rewrite lookup_insert_ne.
  - by apply left_behind_keeps_table.
Qed.



End Provisioning.

Example ensure_over_unregistered_throws :
  ensure_over accepts_all ["nonexistent_table"; "hearings"] empty_world
  = (Rejected (TypeError "catch is not a function"),
     logger_error [LStr (msg_no_instructions "nonexistent_table")] empty_world).
Proof. reflexivity. Qed.

(** The pass over the fixed list, run on any world. *)
Lemma ensureTablesExist_run
    (rejects : Statement -> gmap string Table -> bool) (w : World) :
  await (ensureTablesExist rejects) w
  = (Fulfilled Js.Undefined, fold_left (provision rejects) tables w).
Proof.
  unfold await, ensureTablesExist, adopt.
  apply ensure_over_registered, tables_registered.
Qed.

(** On an empty database a healthy engine creates the five tables; a
    second pass finds them all and creates nothing. *)
Example ensureTablesExist_twice :
  attempts accepts_all tables empty_world
  = [Created; Created; Created; Created; Created]
  /\ attempts accepts_all tables
       (await (ensureTablesExist accepts_all) empty_world).2
     = [Skipped; Skipped; Skipped; Skipped; Skipped]
  /\ db (await (ensureTablesExist accepts_all)
               (await (ensureTablesExist accepts_all) empty_world).2).2
     = db (await (ensureTablesExist accepts_all) empty_world).2.
Proof. repeat split; vm_compute; reflexivity. Qed.

(** C4: in [ensureTablesExist] a table whose creation fails has its error
    caught and logged, and the pass goes on: whatever the engine refuses,
    the call fulfils, each of the five tables is attempted once and in
    order (its statements are in the journal, its one line is in the log),
    and a failed attempt shows as an error line. *)
Theorem ensureTablesExist_attempts_every_table
    (rejects : Statement -> gmap string Table -> bool) (w : World) :
  exists w',
    await (ensureTablesExist rejects) w = (Fulfilled Js.Undefined, w')
    /\ length (attempts rejects tables w) = 5%nat
    /\ journal w'
       = journal w
         ++ concat (zip_with (fun t a => attempt_journal t (def_of t) a)
                             tables
                             (attempts rejects tables w))
    /\ log w'
       = log w
         ++ zip_with attempt_log tables
                     (attempts rejects tables w).
Proof.
  exists (fold_left (provision rejects) tables w).
  split; [apply ensureTablesExist_run|].
  apply (provision_pass_trace rejects tables w).
Qed.


(** ** Order of creation *)

Section Order.

Variable rejects : Statement -> gmap string Table -> bool.

Lemma requests_has_no_foreign_key d :
  missing_fk_target (def_of "requests") d = None.
Proof. reflexivity. Qed.

(** After the step for [requests], the table is there unless the engine
    refused to create it. *)
Lemma provision_requests w :
  has_table "requests" (db w) = true
  \/ rejects (CreateTable (def_of "requests")) (db w) = false ->
  has_table "requests" (db (provision rejects w "requests")) = true.
Proof.
  intros H. unfold provision, after_attempt, attempt. simpl.
  destruct (has_table "requests" (db w)) eqn:Hex; [exact Hex|].
  destruct H as [H|H]; [discriminate|].
  unfold create_error. change (td_name (def_of "requests")) with "requests".
  rewrite Hex, requests_has_no_foreign_key, H. simpl.
  unfold has_table. apply bool_decide_eq_true.
  rewrite lookup_insert_eq. by eexists.
Qed.

(** The step for [requests], when the engine refuses the creation. *)
Lemma provision_requests_refused w :
  has_table "requests" (db w) = false ->
  rejects (CreateTable (def_of "requests")) (db w) = true ->
  attempt rejects "requests" (def_of "requests") (db w)
  = Failed (Refused (CreateTable (def_of "requests")))
  /\ db (provision rejects w "requests") = db w.
Proof.
  intros Hex Hno.
  assert (Ha : attempt rejects "requests" (def_of "requests") (db w)
               = Failed (Refused (CreateTable (def_of "requests")))).
  { unfold attempt, create_error.
    change (td_name (def_of "requests")) with "requests".
    by rewrite Hex, Hno. }
  split; [exact Ha|]. unfold provision. by rewrite Ha.
Qed.

(** The step for another table leaves [requests] as it is. *)
Lemma provision_hearings_leaves_requests w :
  has_table "requests" (db (provision rejects w "hearings"))
  = has_table "requests" (db w).
Proof.
  unfold provision, after_attempt, attempt_db. cbn [db].
  assert (Hins : forall t : Table,
             has_table "requests" (<["hearings" := t]> (db w))
             = has_table "requests" (db w)).
  { intros t. unfold has_table. by rewrite lookup_insert_ne. }
  destruct (attempt rejects "hearings" (def_of "hearings") (db w)) as [| |e];
    [reflexivity|apply Hins|].
  destruct e; try reflexivity. apply Hins.
Qed.

Lemma log_provision w v :
  log (provision rejects w v)
  = log w ++ [attempt_log v (attempt rejects v (def_of v) (db w))].
Proof. reflexivity. Qed.

(** While [requests] is absent, [notifications] cannot be created whole. *)
Lemma attempt_notifications_without_requests (d : gmap string Table) :
  has_table "requests" d = false ->
  attempt rejects "notifications" (def_of "notifications") d <> Created.
Proof.
  intros Hreq. unfold attempt, create_error.
  change (td_name (def_of "notifications")) with "notifications".
  destruct (has_table "notifications" d); [discriminate|].
  destruct (rejects (CreateTable (def_of "notifications")) d); [discriminate|].
  unfold missing_fk_target.
  change (map fk_referencesTable (td_foreignKeys (def_of "notifications")))
    with ["requests"].
  cbn [List.find]. rewrite Hreq. discriminate.
Qed.

(** With [requests] present, the foreign key of [notifications] finds its
    target. *)
Lemma attempt_notifications_with_requests (d : gmap string Table) :
  has_table "requests" d = true ->
  attempt rejects "notifications" (def_of "notifications") d
  <> Failed (ForeignKeyTargetMissing "notifications" "requests").
Proof.
  intros Hreq. unfold attempt, create_error.
  change (td_name (def_of "notifications")) with "notifications".
  destruct (has_table "notifications" d); [discriminate|].
  destruct (rejects (CreateTable (def_of "notifications")) d); [discriminate|].
  unfold missing_fk_target.
  change (map fk_referencesTable (td_foreignKeys (def_of "notifications")))
    with ["requests"].
  cbn [List.find]. rewrite Hreq. discriminate.
Qed.

End Order.

(** The engine refuses to create [requests]: the pass logs it, goes on,
    and sends the DDL of [notifications] while [requests] is absent. *)
Lemma notifications_attempted_without_requests :
  await (ensureTablesExist (refuses_create "requests")) empty_world
  = ensure_over (refuses_create "requests")
      ["notifications"; "log_runners"; "log_hits"]
      (ensure_over (refuses_create "requests") ["requests"; "hearings"]
                   empty_world).2
  /\ has_table "requests"
       (db (ensure_over (refuses_create "requests") ["requests"; "hearings"]
                        empty_world).2) = false
  /\ attempts (refuses_create "requests") tables empty_world
     = [Failed (Refused (CreateTable (def_of "requests")));
        Created;
        Failed (ForeignKeyTargetMissing "notifications" "requests");
        Created;
        Created]
  /\ CreateTable (def_of "notifications")
     ∈ journal (await (ensureTablesExist (refuses_create "requests"))
                      empty_world).2.
Proof.
  split; [vm_compute; reflexivity|].
  split; [vm_compute; reflexivity|].
  split; [vm_compute; reflexivity|].
  apply list_elem_of_In. vm_compute.
  repeat (first [left; reflexivity | right]).
Qed.

(** C2 (amended): [ensureTablesExist] goes through requests, hearings,
    notifications, log_runners, log_hits one after the other, whatever the
    engine does: the steps for requests and hearings have settled, and
    their statements are in the journal, before the step for notifications
    starts, and that step is always made.  When requests exists already or
    the engine does not refuse to create it, requests is present in the
    state in which the creation of notifications is attempted, and that
    attempt does not fail for a missing foreign-key target.  Otherwise the
    failure is logged and the step for notifications is made all the same,
    with requests absent: if notifications is absent too its DDL is sent,
    and it is not created whole. *)
Theorem ensureTablesExist_requests_before_notifications
    (rejects : Statement -> gmap string Table -> bool) (w : World) :
  exists w1,
    ensure_over rejects ["requests"; "hearings"] w = (Fulfilled Js.Undefined, w1)
    /\ await (ensureTablesExist rejects) w
       = ensure_over rejects ["notifications"; "log_runners"; "log_hits"] w1
    /\ journal w1
       = journal w
         ++ attempt_journal "requests" (def_of "requests")
              (attempt rejects "requests" (def_of "requests") (db w))
         ++ attempt_journal "hearings" (def_of "hearings")
              (attempt rejects "hearings" (def_of "hearings")
                 (db (provision rejects w "requests")))
    /\ ensure_over rejects ["notifications"] w1
       = (Fulfilled Js.Undefined, provision rejects w1 "notifications")
    /\ journal (provision rejects w1 "notifications")
       = journal w1
         ++ attempt_journal "notifications" (def_of "notifications")
              (attempt rejects "notifications" (def_of "notifications") (db w1))
    /\ (if has_table "requests" (db w)
           || negb (rejects (CreateTable (def_of "requests")) (db w))
        then
          has_table "requests" (db w1) = true
          /\ attempt rejects "notifications" (def_of "notifications") (db w1)
             <> Failed (ForeignKeyTargetMissing "notifications" "requests")
        else
          has_table "requests" (db w1) = false
          /\ log w1
             = log w
               ++ [mkLog ErrorLevel
                     [LErr (Refused (CreateTable (def_of "requests")))];
                   attempt_log "hearings"
                     (attempt rejects "hearings" (def_of "hearings")
                        (db (provision rejects w "requests")))]
          /\ attempt_journal "notifications" (def_of "notifications")
               (attempt rejects "notifications" (def_of "notifications")
                  (db w1))
             = (if has_table "notifications" (db w1)
                then [HasTable "notifications"]
                else [HasTable "notifications"; HasTable "notifications";
                      CreateTable (def_of "notifications")])
          /\ attempt rejects "notifications" (def_of "notifications") (db w1)
             <> Created).
Proof.
  set (w1 := fold_left (provision rejects) ["requests"; "hearings"] w).
  assert (Hpre : Forall (fun v => exists i, Registry.get v = Registry.Own i)
                        ["requests"; "hearings"]).
  { repeat constructor; eexists; reflexivity. }
  assert (Hpost : Forall (fun v => exists i, Registry.get v = Registry.Own i)
                         ["notifications"; "log_runners"; "log_hits"]).
  { repeat constructor; eexists; reflexivity. }
  assert (Hone : Forall (fun v => exists i, Registry.get v = Registry.Own i)
                        ["notifications"]).
  { repeat constructor; eexists; reflexivity. }
  exists w1. split; [by apply ensure_over_registered|].
  split.
  { rewrite ensureTablesExist_run, ensure_over_registered by exact Hpost.
    reflexivity. }
  split.
  { subst w1. cbn [fold_left].
    by rewrite !journal_provision, <- app_assoc. }
  split; [by apply ensure_over_registered|].
  split; [apply journal_provision|].
  assert (Hw1 : has_table "requests" (db w1)
                = has_table "requests" (db (provision rejects w "requests"))).
  { subst w1. cbn [fold_left]. apply provision_hearings_leaves_requests. }
  destruct (has_table "requests" (db w)) eqn:Hex; cbn [orb].
  { assert (Hhas : has_table "requests" (db w1) = true).
    { rewrite Hw1. apply provision_requests. left. exact Hex. }
    split; [exact Hhas|by apply attempt_notifications_with_requests]. }
  destruct (rejects (CreateTable (def_of "requests")) (db w)) eqn:Hno;
    cbn [negb].
  - destruct (provision_requests_refused rejects w Hex Hno) as [Ha Hdb].
    assert (Hhas : has_table "requests" (db w1) = false).
    { by rewrite Hw1, Hdb. }
    split; [exact Hhas|]. split.
    { subst w1. cbn [fold_left]. rewrite !log_provision, Ha.
      by rewrite <- app_assoc. }
    split; [|by apply attempt_notifications_without_requests].
    unfold attempt. destruct (has_table "notifications" (db w1));
      [reflexivity|].
    by destruct (create_error rejects (def_of "notifications") (db w1)).
  - assert (Hhas : has_table "requests" (db w1) = true).
    { rewrite Hw1. apply provision_requests. right. exact Hno. }
    split; [exact Hhas|by apply attempt_notifications_with_requests].
Qed.

(** ** Calling [createTable] again *)

(** The engine refuses to create [hearings] (a missing privilege, say):
    [createTable("hearings")] rejects, and so does a second call, which
    finds no table at the existence check and runs the creation
    instruction once more. *)
Lemma createTable_twice_fails_when_refused :
  await (createTable (refuses_create "hearings") "hearings") empty_world
  = (Rejected (Refused (CreateTable (def_of "hearings"))),
     mkWorld ∅ (pool empty_world) []
             [HasTable "hearings"; HasTable "hearings";
              CreateTable (def_of "hearings")])
  /\ await (createTable (refuses_create "hearings") "hearings")
           (await (createTable (refuses_create "hearings") "hearings")
                  empty_world).2
     = (Rejected (Refused (CreateTable (def_of "hearings"))),
        mkWorld ∅ (pool empty_world) []
                [HasTable "hearings"; HasTable "hearings";
                 CreateTable (def_of "hearings");
                 HasTable "hearings"; HasTable "hearings";
                 CreateTable (def_of "hearings")]).
Proof. split; vm_compute; reflexivity. Qed.

(** C3 (amended): for every registered table name, once a call of
    [createTable(name)] has succeeded, a further call succeeds as well: it
    stops at the existence check (one [hasTable] query, the skip logged, no
    creation instruction run) and leaves the database, hence the schema of
    the table, as the first call left it. *)
Theorem createTable_idempotent_once_created
    (rejects : Statement -> gmap string Table -> bool)
    (name : string) (w w1 : World) (v : Js.value)
    (Hname : name ∈ Registry.registered_names)
    (Hfirst : await (createTable rejects name) w = (Fulfilled v, w1)) :
  exists w2,
    await (createTable rejects name) w1 = (Fulfilled Js.Undefined, w2)
    /\ journal w2 = journal w1 ++ [HasTable name]
    /\ log w2 = log w1 ++ [mkLog DebugLevel [LStr (msg_already_exists name)]]
    /\ db w2 = db w1
    /\ t_def <$> db w2 !! name = t_def <$> db w1 !! name
    /\ has_table name (db w1) = true.
Proof.
  destruct (registered_get name Hname) as [i Hget].
  assert (Hex : has_table name (db w1) = true).
  { rewrite (await_createTable_own rejects name i w Hget) in Hfirst.
    unfold attempt in Hfirst.
    destruct (has_table name (db w)) eqn:Hw.
    - injection Hfirst as _ <-. exact Hw.
    - destruct (create_error rejects (def_of name) (db w));
        [discriminate|].
      injection Hfirst as _ <-. simpl. unfold has_table.
      apply bool_decide_eq_true. rewrite lookup_insert_eq. by eexists. }
  exists (after_attempt name (def_of name) Skipped w1).
  split.
  { rewrite (await_createTable_own rejects name i w1 Hget).
    unfold attempt. by rewrite Hex. }
  by repeat split.
Qed.

Lemma createTable_idempotent_once_created_witness :
  exists w2,
    await (createTable accepts_all "hearings")
          (await (createTable accepts_all "hearings") empty_world).2
    = (Fulfilled Js.Undefined, w2)
    /\ db w2 = db (await (createTable accepts_all "hearings") empty_world).2.
Proof.
  assert (Hname : "hearings" ∈ Registry.registered_names).
  { apply list_elem_of_In. vm_compute. tauto. }
  assert (Hfirst : await (createTable accepts_all "hearings") empty_world
                   = (Fulfilled Js.Undefined,
                      (await (createTable accepts_all "hearings")
                             empty_world).2)).
  { vm_compute. reflexivity. }
  destruct (createTable_idempotent_once_created accepts_all "hearings"
              empty_world _ Js.Undefined Hname Hfirst)
    as (w2 & Hrun & _ & _ & Hdb & _).
  exists w2. split; [exact Hrun|exact Hdb].
Defined.

(** ** Names the registry does not own *)

(** C5, at the name [toString]: the registry holds no definition for it,
    yet the guard of [createTable] lets it through, because the property
    read finds the method inherited from [Object.prototype].  No error is
    logged and a promise is returned instead of [false]; awaited on a
    database without such a table, it rejects with a [TypeError]. *)
Theorem createTable_inherited_name_passes_guard
    (rejects : Statement -> gmap string Table -> bool) (w : World) :
  Registry.definitionFor "toString" = None
  /\ ("toString" ∉ Registry.registered_names)
  /\ (exists p, createTable rejects "toString" w = (ReturnPromise p, w))
  /\ fst (createTable rejects "toString" w) <> ReturnValue (Js.Bool false)
  /\ log (snd (createTable rejects "toString" w)) = log w
  /\ await (createTable rejects "toString") empty_world
     = (Rejected (TypeError "then is not a function"),
        record (HasTable "toString") empty_world).
Proof.
  split; [reflexivity|].
  split.
  { intros H%list_elem_of_In. vm_compute in H. intuition discriminate. }
  destruct (createTable_truthy rejects "toString" w eq_refl) as [p Hp].
  split; [by exists p|].
  rewrite Hp. split; [discriminate|]. split; reflexivity.
Qed.

(** For a name that reads as [undefined], the guard works as specified:
    the error is logged, [false] is returned, nothing reaches the engine
    and the database is untouched. *)
Lemma createTable_unregistered
    (rejects : Statement -> gmap string Table -> bool)
    (name : string) (w : World) :
  Registry.get name = Registry.Missing ->
  exists w',
    createTable rejects name w = (ReturnValue (Js.Bool false), w')
    /\ Js.truthy (Js.Bool false) = false
    /\ log w' = log w ++ [mkLog ErrorLevel [LStr (msg_no_instructions name)]]
    /\ journal w' = journal w
    /\ db w' = db w
    /\ pool w' = pool w.
Proof.
  intros H. eexists. split; [by apply createTable_missing|]. by repeat split.
Qed.

(** ** Batch insert *)

Lemma chunk_fuel_concat {A} (n : nat) : forall (fuel : nat) (l : list A),
  (0 < n)%nat -> (length l <= fuel)%nat -> concat (chunk_fuel fuel n l) = l.
Proof.
  induction fuel as [|fuel IH]; intros l Hn Hlen.
  - destruct l; [reflexivity|simpl in Hlen; lia].
  - destruct l as [|x l]; [reflexivity|].
    cbn [chunk_fuel concat]. rewrite IH; [apply take_drop|exact Hn|].
    rewrite length_drop. simpl in *. lia.
Qed.

(** The chunks of a list, put together again, are the list. *)
Lemma chunk_concat {A} (n : nat) (l : list A) :
  (0 < n)%nat -> concat (chunk n l) = l.
Proof. intros Hn. by apply chunk_fuel_concat. Qed.

Lemma chunk_nil {A} (n : nat) : chunk n (@nil A) = [].
Proof. reflexivity. Qed.

Lemma append_rows_nil table (d : gmap string Table) :
  append_rows table [] d = d.
Proof.
  unfold append_rows. destruct (d !! table) as [t|] eqn:E; [|reflexivity].
  apply insert_id. rewrite E. destruct t. unfold add_rows. simpl.
  by rewrite app_nil_r.
Qed.

Lemma append_rows_app table r1 r2 (d : gmap string Table) :
  append_rows table r2 (append_rows table r1 d) = append_rows table (r1 ++ r2) d.
Proof.
  unfold append_rows. destruct (d !! table) as [t|] eqn:E.
  - rewrite lookup_insert_eq, insert_insert_eq. unfold add_rows. simpl.
    by rewrite app_assoc.
  - by rewrite E.
Qed.

Section BatchInsert.

Variable rejects : Statement -> gmap string Table -> bool.

(** What inserting the chunks does to the state of the transaction. *)
Lemma insert_chunks_run table chunks : forall st,
  match insert_chunks rejects table chunks st with
  | (Fulfilled v, st') =>
      v = Js.Undefined
      /\ tx_snapshot st' = tx_snapshot st
      /\ tx_outcome st' = tx_outcome st
      /\ pool (tx_world st') = pool (tx_world st)
      /\ log (tx_world st') = log (tx_world st)
      /\ db (tx_world st')
         = append_rows table (concat chunks) (db (tx_world st))
      /\ journal (tx_world st')
         = journal (tx_world st) ++ map (Insert table) chunks
      /\ (chunks = [] \/ has_table table (db (tx_world st)) = true)
  | (Rejected e, st') =>
      tx_snapshot st' = tx_snapshot st
      /\ tx_outcome st' = tx_outcome st
      /\ pool (tx_world st') = pool (tx_world st)
      /\ log (tx_world st') = log (tx_world st)
      /\ (exists k,
             journal (tx_world st')
             = journal (tx_world st) ++ map (Insert table) (take k chunks))
      /\ (exists c d, c ∈ chunks /\ insert_error rejects table c d = Some e)
  end.
Proof.
  induction chunks as [|c rest IH]; intros st.
  - simpl. rewrite append_rows_nil, app_nil_r. repeat split; by left.
  - cbn [insert_chunks]. unfold tx_execute, execute.
    destruct (insert_error rejects table c (db (tx_world st))) as [e|] eqn:E.
    + simpl. repeat split.
      * by exists 1%nat.
      * exists c, (db (tx_world st)). split; [apply elem_of_cons; by left|exact E].
    + specialize (IH (mkTx (set_db (append_rows table c (db (tx_world st)))
                                   (record (Insert table c) (tx_world st)))
                           (tx_snapshot st) (tx_outcome st))).
      destruct (insert_chunks rejects table rest _) as [[v|e] st'].
      * destruct IH as (Hv & Hs & Ho & Hp & Hl & Hd & Hj & _).
        simpl in *. rewrite Hd, Hj, append_rows_app, <- app_assoc.
        repeat split; try done.
        right. unfold insert_error in E.
        by destruct (has_table table (db (tx_world st))).
      * destruct IH as (Hs & Ho & Hp & Hl & [k Hj] & (c' & d & Hc & He)).
        simpl in *. repeat split; try done.
        -- exists (S k). by rewrite Hj, <- app_assoc.
        -- exists c', d. split; [apply elem_of_cons; by right|exact He].
Qed.

(** A handler of the shape [p.then(trx.commit).catch(trx.rollback)], where
    [p] leaves the transaction open: the transaction commits with the
    value of [p], or rolls back to the database of [BEGIN] and rejects
    with the error of [p]. *)
Lemma transaction_commit_or_rollback (p : Promise TxState) w :
  (forall st, tx_snapshot (p st).2 = tx_snapshot st
              /\ tx_outcome (p st).2 = tx_outcome st) ->
  transaction
    (inr (catch_ (then_ p (fun v st => (ReturnPromise (trx_commit v), st)))
                 (fun e st => (ReturnPromise (trx_rollback e), st)))) w
  = match p (mkTx (record Begin w) (db w) None) with
    | (Fulfilled v, st') => (Fulfilled v, record Commit (tx_world st'))
    | (Rejected e, st') =>
        (Rejected e, record Rollback (set_db (db w) (tx_world st')))
    end.
Proof.
  intros Hp. specialize (Hp (mkTx (record Begin w) (db w) None)).
  unfold transaction, catch_, then_.
  destruct (p (mkTx (record Begin w) (db w) None)) as [[v|e] st'];
    simpl in Hp; destruct Hp as [Hs Ho]; simpl;
    unfold trx_commit, trx_rollback; rewrite Ho; simpl; by rewrite ?Hs.
Qed.

End BatchInsert.

Lemma insert_chunks_keeps_open
    (rejects : Statement -> gmap string Table -> bool) table chunks st :
  tx_snapshot (insert_chunks rejects table chunks st).2 = tx_snapshot st
  /\ tx_outcome (insert_chunks rejects table chunks st).2 = tx_outcome st.
Proof.
  pose proof (insert_chunks_run rejects table chunks st) as H.
  destruct (insert_chunks rejects table chunks st) as [[v|e] st']; simpl;
    intuition.
Qed.

(** What [batchInsert] does with a chunk size of at least one. *)
Lemma batchInsert_run
    (rejects : Statement -> gmap string Table -> bool)
    table rows size w :
  (size <? 1) = false ->
  await (batchInsert rejects table rows size) w
  = match insert_chunks rejects table (chunk (Z.to_nat size) rows)
            (mkTx (record Begin
                     (logger_debug [LStr "batch inserting";
                                    LNum (Z.of_nat (length rows));
                                    LStr "rows"] w))
                  (db w) None) with
    | (Fulfilled v, st') => (Fulfilled v, record Commit (tx_world st'))
    | (Rejected e, st') =>
        (Rejected e, record Rollback (set_db (db w) (tx_world st')))
    end.
Proof.
  intros Hsize. unfold await, batchInsert, adopt, batchInsert_handler,
    trx_batchInsert. rewrite Hsize.
  rewrite transaction_commit_or_rollback; [reflexivity|].
  intros st. apply insert_chunks_keeps_open.
Qed.

(** With a chunk size below one nothing is inserted and the call rejects. *)
Lemma batchInsert_invalid_size
    (rejects : Statement -> gmap string Table -> bool)
    table rows size w :
  (size <? 1) = true ->
  await (batchInsert rejects table rows size) w
  = (Rejected (TypeError "Invalid chunkSize"),
     mkWorld (db w) (pool w)
             (log w ++ [mkLog DebugLevel [LStr "batch inserting";
                                     LNum (Z.of_nat (length rows));
                                     LStr "rows"]])
             (journal w ++ [Begin; Rollback])).
Proof.
  intros Hsize. unfold await, batchInsert, adopt, batchInsert_handler,
    trx_batchInsert. rewrite Hsize.
  unfold transaction, reject, trx_rollback, record, set_db. simpl.
  by rewrite <- app_assoc.
Qed.

(** Chunk by chunk, what the inserts do to the state of the transaction:
    they all go in, or they stop at the first chunk the engine does not
    take. *)
Lemma insert_chunks_first_failure
    (rejects : Statement -> gmap string Table -> bool) table chunks :
  forall st,
    insert_chunks rejects table chunks st
    = match first_failure rejects table chunks (db (tx_world st)) with
      | None =>
          (Fulfilled Js.Undefined,
           mkTx (mkWorld (append_rows table (concat chunks) (db (tx_world st)))
                         (pool (tx_world st)) (log (tx_world st))
                         (journal (tx_world st) ++ map (Insert table) chunks))
                (tx_snapshot st) (tx_outcome st))
      | Some (k, e) =>
          (Rejected e,
           mkTx (mkWorld (append_rows table (concat (take k chunks))
                                      (db (tx_world st)))
                         (pool (tx_world st)) (log (tx_world st))
                         (journal (tx_world st)
                          ++ map (Insert table) (take (S k) chunks)))
                (tx_snapshot st) (tx_outcome st))
      end.
Proof.
  induction chunks as [|c rest IH]; intros st.
  - cbn. rewrite append_rows_nil, app_nil_r. by destruct st as [[] ? ?].
  - cbn [insert_chunks first_failure]. unfold tx_execute, execute.
    destruct (insert_error rejects table c (db (tx_world st))) as [e|] eqn:E.
    + cbn. by rewrite append_rows_nil.
    + rewrite IH. cbn [tx_world tx_snapshot tx_outcome db pool log journal
                       set_db record].
      destruct (first_failure rejects table rest
                  (append_rows table c (db (tx_world st)))) as [[k e]|];
        cbn [concat take map]; by rewrite append_rows_app, <- app_assoc.
Qed.

(** The chunk that fails is the one at the position [first_failure] gives,
    refused in the database that holds the chunks before it. *)
Lemma first_failure_cause
    (rejects : Statement -> gmap string Table -> bool) table chunks :
  forall d k e,
    first_failure rejects table chunks d = Some (k, e) ->
    exists c,
      chunks !! k = Some c
      /\ insert_error rejects table c
           (append_rows table (concat (take k chunks)) d) = Some e.
Proof.
  induction chunks as [|c rest IH]; intros d k e H; [discriminate|].
  cbn [first_failure] in H.
  destruct (insert_error rejects table c d) as [e0|] eqn:E.
  - injection H as <- <-. exists c. cbn. by rewrite append_rows_nil.
  - destruct (first_failure rejects table rest (append_rows table c d))
      as [[k0 e0]|] eqn:F; [|discriminate].
    injection H as <- <-. destruct (IH _ _ _ F) as (c' & Hc & He).
    exists c'. split; [exact Hc|]. cbn [take concat].
    by rewrite <- append_rows_app.
Qed.

(** Rows for an existing table, an engine that refuses nothing, and a
    chunk size of zero: the call rejects with the refusal of the chunk
    size; no chunk failed, none was even sent, and no row is committed. *)
Lemma batchInsert_size_zero_neither_commits_nor_fails_a_chunk :
  insert_error accepts_all "requests"
    [[("case_id", Js.Str "A1"); ("phone", Js.Str "+19075550101")]]
    {["requests" := mkStored (def_of "requests") []]}
  = None
  /\ await (batchInsert accepts_all "requests"
              [[("case_id", Js.Str "A1"); ("phone", Js.Str "+19075550101")]] 0)
           (mkWorld {["requests" := mkStored (def_of "requests") []]}
                    (pool empty_world) [] [])
     = (Rejected (TypeError "Invalid chunkSize"),
        mkWorld {["requests" := mkStored (def_of "requests") []]}
                (pool empty_world)
                [mkLog DebugLevel [LStr "batch inserting"; LNum 1; LStr "rows"]]
                [Begin; Rollback]).
Proof. split; vm_compute; reflexivity. Qed.

Lemma inserts_carry_chunks table (cs : list (list Row)) :
  carries_chunks table cs (map (Insert table) cs).
Proof.
  unfold carries_chunks. induction cs as [|c cs [IHf IHb]]; [by split|].
  cbn [map List.filter forallb is_insert_into transaction_control negb andb].
  rewrite String.eqb_refl. split; [by rewrite IHf|exact IHb].
Qed.

(** C1 (amended): for every table, list of rows and chunk size of at least
    one, [batchInsert(table, rows, size)] runs in one transaction, and
    which way it ends is decided by the chunks alone.  When the engine
    takes every chunk, the call fulfils and every row is in the table; the
    journal shows one [BEGIN], then the inserts of all chunks, then
    [COMMIT].  When it does not, the call rejects with the error of the
    first chunk it refused, the database is as it was before the call,
    rows of earlier chunks included; the journal shows one [BEGIN], then
    the inserts up to the failing one, then [ROLLBACK]. *)
Theorem batchInsert_all_or_nothing
    (rejects : Statement -> gmap string Table -> bool)
    (table : string) (rows : list Row) (size : Z) (w : World)
    (Hsize : 1 <= size) :
  exists w' body,
    pool w' = pool w
    /\ concat (chunk (Z.to_nat size) rows) = rows
    /\ match first_failure rejects table (chunk (Z.to_nat size) rows) (db w) with
       | None =>
           await (batchInsert rejects table rows size) w
           = (Fulfilled Js.Undefined, w')
           /\ db w' = append_rows table rows (db w)
           /\ (rows = [] \/ has_table table (db w) = true)
           /\ journal w' = journal w ++ Begin :: body ++ [Commit]
           /\ carries_chunks table (chunk (Z.to_nat size) rows) body
       | Some (k, e) =>
           await (batchInsert rejects table rows size) w = (Rejected e, w')
           /\ db w' = db w
           /\ journal w' = journal w ++ Begin :: body ++ [Rollback]
           /\ carries_chunks table
                (take (S k) (chunk (Z.to_nat size) rows)) body
           /\ exists c,
               chunk (Z.to_nat size) rows !! k = Some c
               /\ insert_error rejects table c
                    (append_rows table
                       (concat (take k (chunk (Z.to_nat size) rows))) (db w))
                  = Some e
       end.
Proof.
  assert (Hs : (size <? 1) = false) by (apply Z.ltb_ge; lia).
  assert (Hn : (0 < Z.to_nat size)%nat) by lia.
  rewrite (batchInsert_run rejects table rows size w Hs).
  rewrite insert_chunks_first_failure.
  cbn [tx_world db pool log journal record logger_debug write_log].
  destruct (first_failure rejects table (chunk (Z.to_nat size) rows) (db w))
    as [[k e]|] eqn:F.
  - eexists.
    exists (map (Insert table) (take (S k) (chunk (Z.to_nat size) rows))).
    split; [|split; [by apply chunk_concat|]].
    2:{ split; [reflexivity|]. cbn [record set_db db journal tx_world].
        split; [reflexivity|]. split; [by rewrite <- !app_assoc|].
        split; [apply inserts_carry_chunks|].
        by apply (first_failure_cause rejects table _ _ _ _ F). }
    reflexivity.
  - eexists. exists (map (Insert table) (chunk (Z.to_nat size) rows)).
    split; [|split; [by apply chunk_concat|]].
    2:{ split; [reflexivity|]. cbn [record db journal tx_world].
        rewrite chunk_concat by exact Hn.
        split; [reflexivity|].
        split; [|split; [by rewrite <- !app_assoc|apply inserts_carry_chunks]].
        destruct (chunk (Z.to_nat size) rows) as [|c cs] eqn:Hc.
        - left. by rewrite <- (chunk_concat (Z.to_nat size) rows Hn), Hc.
        - right. cbn [first_failure] in F. unfold insert_error in F.
          by destruct (has_table table (db w)). }
    reflexivity.
Qed.

(** Five rows in chunks of two, the engine refusing the chunk that holds
    the third row: the call rejects with that refusal and the first chunk
    is gone again. *)
Lemma batchInsert_all_or_nothing_witness :
  exists w',
    await (batchInsert
             (refuses_row [("case_id", Js.Str "A3"); ("phone", Js.Str "3")])
             "requests"
             [[("case_id", Js.Str "A1"); ("phone", Js.Str "1")];
              [("case_id", Js.Str "A2"); ("phone", Js.Str "2")];
              [("case_id", Js.Str "A3"); ("phone", Js.Str "3")];
              [("case_id", Js.Str "A4"); ("phone", Js.Str "4")];
              [("case_id", Js.Str "A5"); ("phone", Js.Str "5")]] 2)
          (mkWorld {["requests" := mkStored (def_of "requests") []]}
                   (pool empty_world) [] [])
    = (Rejected
         (Refused (Insert "requests"
                     [[("case_id", Js.Str "A3"); ("phone", Js.Str "3")];
                      [("case_id", Js.Str "A4"); ("phone", Js.Str "4")]])),
       w')
    /\ db w' = {["requests" := mkStored (def_of "requests") []]}.
Proof.
  pose proof (batchInsert_all_or_nothing
                (refuses_row [("case_id", Js.Str "A3"); ("phone", Js.Str "3")])
                "requests"
                [[("case_id", Js.Str "A1"); ("phone", Js.Str "1")];
                 [("case_id", Js.Str "A2"); ("phone", Js.Str "2")];
                 [("case_id", Js.Str "A3"); ("phone", Js.Str "3")];
                 [("case_id", Js.Str "A4"); ("phone", Js.Str "4")];
                 [("case_id", Js.Str "A5"); ("phone", Js.Str "5")]] 2
                (mkWorld {["requests" := mkStored (def_of "requests") []]}
                         (pool empty_world) [] [])
                (proj1 (Z.leb_le 1 2) eq_refl)) as (w' & body & _ & _ & H).
  match type of H with
  | match ?ff with _ => _ end =>
      assert (Hff : ff = Some (1%nat,
                       Refused (Insert "requests"
                         [[("case_id", Js.Str "A3"); ("phone", Js.Str "3")];
                          [("case_id", Js.Str "A4"); ("phone", Js.Str "4")]])))
        by (vm_compute; reflexivity);
      rewrite Hff in H
  end.
  destruct H as (Hrun & Hdb & _).
  exists w'. split; [exact Hrun|exact Hdb].
Defined.

(** Five rows in chunks of two, the engine refusing the chunk that holds
    the third row: the first chunk went in, the rollback took it out. *)
Example batchInsert_third_row_fails :
  let w := mkWorld {["requests" := mkStored (def_of "requests") []]}
                   (pool empty_world) [] [] in
  let row n : Row := [("case_id", Js.Num n)] in
  let result := await (batchInsert (refuses_row (row 3)) "requests"
                         [row 1; row 2; row 3; row 4; row 5] 2) w in
  result.1 = Rejected (Refused (Insert "requests" [row 3; row 4]))
  /\ db result.2 = db w
  /\ journal result.2
     = [Begin; Insert "requests" [row 1; row 2];
        Insert "requests" [row 3; row 4]; Rollback].
Proof. vm_compute. by repeat split. Qed.

(** With a chunk size of zero, the call with no rows rejects. *)
Lemma batchInsert_empty_rows_size_zero_rejects :
  await (batchInsert accepts_all "requests" [] 0) empty_world
  = (Rejected (TypeError "Invalid chunkSize"),
     mkWorld ∅ (pool empty_world)
             [mkLog DebugLevel [LStr "batch inserting"; LNum 0; LStr "rows"]]
             [Begin; Rollback]).
Proof. reflexivity. Qed.

(** C7 (amended): for every table name and every chunk size of at least
    one, [batchInsert(table, [], size)] fulfils: the transaction commits
    without a single insert and the database is as it was. *)
Theorem batchInsert_empty_rows_commits
    (rejects : Statement -> gmap string Table -> bool)
    (table : string) (size : Z) (w : World) (Hsize : 1 <= size) :
  exists w',
    await (batchInsert rejects table [] size) w = (Fulfilled Js.Undefined, w')
    /\ db w' = db w
    /\ journal w' = journal w ++ [Begin; Commit]
    /\ pool w' = pool w.
Proof.
  assert (Hs : (size <? 1) = false) by (apply Z.ltb_ge; lia).
  eexists. split.
  { rewrite (batchInsert_run rejects table [] size w Hs). rewrite chunk_nil.
    reflexivity. }
  simpl. rewrite <- app_assoc. by repeat split.
Qed.

Lemma batchInsert_empty_rows_commits_witness :
  exists w',
    await (batchInsert accepts_all "requests" [] 2) empty_world
    = (Fulfilled Js.Undefined, w')
    /\ db w' = db empty_world.
Proof.
  destruct (batchInsert_empty_rows_commits accepts_all "requests" 2
              empty_world (proj1 (Z.leb_le 1 2) eq_refl))
    as (w' & Hrun & Hdb & _).
  exists w'. split; [exact Hrun|exact Hdb].
Defined.

(** * Further properties *)

Import Checks.

(** ** Dropping a table *)

Section DropTable.

Variable rejects : Statement -> gmap string Table -> bool.

(** What awaiting [dropTable] does, by the engine's answer. *)
Lemma dropTable_run name w :
  await (dropTable rejects name) w
  = if rejects (DropTableIfExists name) (db w)
    then (Rejected (Refused (DropTableIfExists name)),
          record (DropTableIfExists name) w)
    else (Fulfilled Js.Undefined,
          mkWorld (delete name (db w)) (pool w)
                  (log w ++ [mkLog DebugLevel [LStr (msg_dropped name)]])
                  (journal w ++ [DropTableIfExists name])).
Proof.
  unfold await, dropTable, adopt, then_, schema_dropTableIfExists, execute.
  by destruct (rejects (DropTableIfExists name) (db w)).
Qed.

Lemma has_table_delete name (d : gmap string Table) :
  has_table name (delete name d) = false.
Proof.
  unfold has_table. apply bool_decide_eq_false.
  rewrite lookup_delete_eq. by intros [? ?].
Qed.

Lemma has_table_false_lookup name (d : gmap string Table) :
  has_table name d = false -> d !! name = None.
Proof.
  unfold has_table. intros H%bool_decide_eq_false.
  destruct (d !! name) eqn:E; [|reflexivity]. destruct H. by eexists.
Qed.

Lemma has_table_insert name t (d : gmap string Table) :
  has_table name (<[name := t]> d) = true.
Proof.
  unfold has_table. apply bool_decide_eq_true.
  rewrite lookup_insert_eq. by eexists.
Qed.

(** X1: when the engine does not refuse the statement, [dropTable(name)]
    fulfils, the table is gone, every other table is as it was, and one
    debug line is logged. *)
Theorem dropTable_removes_only_that_table
    (name : string) (w : World)
    (Hok : rejects (DropTableIfExists name) (db w) = false) :
  exists w',
    await (dropTable rejects name) w = (Fulfilled Js.Undefined, w')
    /\ has_table name (db w') = false
    /\ db w' = delete name (db w)
    /\ (forall other, other <> name -> db w' !! other = db w !! other)
    /\ log w' = log w ++ [mkLog DebugLevel [LStr (msg_dropped name)]]
    /\ journal w' = journal w ++ [DropTableIfExists name]
    /\ pool w' = pool w.
Proof.
  eexists. split; [rewrite dropTable_run, Hok; reflexivity|]. simpl.
  split; [apply has_table_delete|]. split; [reflexivity|].
  split; [|by repeat split].
  intros other Hne. by apply lookup_delete_ne.
Qed.

(** X2: [dropTable] has no handler of its own: when the engine refuses the
    statement the call rejects with the engine's error, nothing is logged
    and the database is untouched. *)
Theorem dropTable_refusal_reaches_caller
    (name : string) (w : World)
    (Hno : rejects (DropTableIfExists name) (db w) = true) :
  exists w',
    await (dropTable rejects name) w
    = (Rejected (Refused (DropTableIfExists name)), w')
    /\ db w' = db w
    /\ log w' = log w
    /\ journal w' = journal w ++ [DropTableIfExists name].
Proof.
  eexists. split; [rewrite dropTable_run, Hno; reflexivity|]. by repeat split.
Qed.

(** X3: dropping a table that does not exist is no error: the call
    fulfils and the database is unchanged, yet the line "Dropped existing
    table" is logged all the same. *)
Theorem dropTable_absent_table_is_noop
    (name : string) (w : World)
    (Habsent : has_table name (db w) = false)
    (Hok : rejects (DropTableIfExists name) (db w) = false) :
  exists w',
    await (dropTable rejects name) w = (Fulfilled Js.Undefined, w')
    /\ db w' = db w
    /\ log w' = log w ++ [mkLog DebugLevel [LStr (msg_dropped name)]].
Proof.
  eexists. split; [rewrite dropTable_run, Hok; reflexivity|]. simpl.
  split; [|reflexivity].
  apply delete_id. by apply has_table_false_lookup.
Qed.

(** X4: after a successful [dropTable(name)], [createTable(name)] of a
    registered name does not stop at the existence check: it sends the
    DDL, and when the engine accepts it the table is back, empty and with
    the registered definition, whatever it held before. *)
Theorem dropTable_then_createTable_recreates
    (name : string) (w : World)
    (Hname : name ∈ Registry.registered_names)
    (Hdrop : rejects (DropTableIfExists name) (db w) = false)
    (Hcreate : create_error rejects (def_of name) (delete name (db w)) = None) :
  exists w1 w2,
    await (dropTable rejects name) w = (Fulfilled Js.Undefined, w1)
    /\ await (createTable rejects name) w1 = (Fulfilled Js.Undefined, w2)
    /\ db w2 = <[name := mkStored (def_of name) []]> (db w)
    /\ journal w2
       = journal w ++ [DropTableIfExists name; HasTable name; HasTable name;
                       CreateTable (def_of name)].
Proof.
  destruct (registered_get name Hname) as [i Hget].
  eexists. eexists. split; [rewrite dropTable_run, Hdrop; reflexivity|].
  rewrite (await_createTable_own rejects name i _ Hget).
  unfold attempt. cbn [db]. rewrite has_table_delete, Hcreate.
  split; [reflexivity|]. unfold after_attempt. cbn [db journal attempt_db].
  split; [apply insert_delete_eq|].
  by rewrite <- app_assoc.
Qed.

(** X5: after a successful [createTable(name)] of a registered name, a
    [dropTable(name)] the engine accepts leaves the database as it was
    before both calls, without the table. *)
Theorem createTable_then_dropTable_removes
    (name : string) (w w1 : World) (v : Js.value)
    (Hname : name ∈ Registry.registered_names)
    (Hcreate : await (createTable rejects name) w = (Fulfilled v, w1))
    (Hdrop : rejects (DropTableIfExists name) (db w1) = false) :
  exists w2,
    await (dropTable rejects name) w1 = (Fulfilled Js.Undefined, w2)
    /\ db w2 = delete name (db w)
    /\ has_table name (db w2) = false.
Proof.
  destruct (registered_get name Hname) as [i Hget].
  rewrite (await_createTable_own rejects name i w Hget) in Hcreate.
  eexists. split; [rewrite dropTable_run, Hdrop; reflexivity|]. cbn [db].
  split; [|apply has_table_delete].
  destruct (attempt rejects name (def_of name) (db w));
    try discriminate; injection Hcreate as _ <-; cbn [db after_attempt attempt_db].
  - reflexivity.
  - apply delete_insert_eq.
Qed.

End DropTable.

Lemma dropTable_removes_only_that_table_witness :
  exists w',
    await (dropTable accepts_all "hearings")
          (await (ensureTablesExist accepts_all) empty_world).2
    = (Fulfilled Js.Undefined, w')
    /\ has_table "hearings" (db w') = false.
Proof.
  destruct (dropTable_removes_only_that_table accepts_all "hearings"
              (await (ensureTablesExist accepts_all) empty_world).2 eq_refl)
    as (w' & Hrun & Hgone & _).
  exists w'. split; [exact Hrun|exact Hgone].
Defined.

Lemma dropTable_refusal_reaches_caller_witness :
  exists w',
    await (dropTable (fun _ _ => true) "hearings") empty_world
    = (Rejected (Refused (DropTableIfExists "hearings")), w')
    /\ log w' = log empty_world.
Proof.
  destruct (dropTable_refusal_reaches_caller (fun _ _ => true) "hearings"
              empty_world eq_refl)
    as (w' & Hrun & _ & Hlog & _).
  exists w'. split; [exact Hrun|exact Hlog].
Defined.

Lemma dropTable_absent_table_is_noop_witness :
  exists w',
    await (dropTable accepts_all "hearings") empty_world
    = (Fulfilled Js.Undefined, w')
    /\ db w' = db empty_world.
Proof.
  destruct (dropTable_absent_table_is_noop accepts_all "hearings"
              empty_world eq_refl eq_refl)
    as (w' & Hrun & Hdb & _).
  exists w'. split; [exact Hrun|exact Hdb].
Defined.

Lemma hearings_registered : "hearings" ∈ Registry.registered_names.
Proof. apply list_elem_of_In. vm_compute. tauto. Qed.

Lemma dropTable_then_createTable_recreates_witness :
  exists w1 w2,
    await (dropTable accepts_all "hearings") empty_world
    = (Fulfilled Js.Undefined, w1)
    /\ await (createTable accepts_all "hearings") w1
       = (Fulfilled Js.Undefined, w2)
    /\ db w2 = <["hearings" := mkStored (def_of "hearings") []]> (db empty_world).
Proof.
  destruct (dropTable_then_createTable_recreates accepts_all "hearings"
              empty_world hearings_registered eq_refl eq_refl)
    as (w1 & w2 & Hdrop & Hcreate & Hdb & _).
  exists w1, w2. split; [exact Hdrop|]. split; [exact Hcreate|exact Hdb].
Defined.

Lemma createTable_then_dropTable_removes_witness :
  exists w2,
    await (dropTable accepts_all "hearings")
          (await (createTable accepts_all "hearings") empty_world).2
    = (Fulfilled Js.Undefined, w2)
    /\ has_table "hearings" (db w2) = false.
Proof.
  destruct (createTable_then_dropTable_removes accepts_all "hearings"
              empty_world
              (await (createTable accepts_all "hearings") empty_world).2
              Js.Undefined hearings_registered eq_refl eq_refl)
    as (w2 & Hrun & _ & Hgone).
  exists w2. split; [exact Hrun|exact Hgone].
Defined.

(** ** More on creating one table *)

Section CreateTableMore.

Variable rejects : Statement -> gmap string Table -> bool.

Lemma create_error_kinds def d e :
  create_error rejects def d = Some e ->
  has_table (td_name def) d = true /\ e = RelationExists (td_name def)
  \/ has_table (td_name def) d = false
     /\ ((exists target,
             missing_fk_target def d = Some target
             /\ e = ForeignKeyTargetMissing (td_name def) target)
         \/ e = Refused (CreateTable def)).
Proof.
  unfold create_error. intros H.
  destruct (has_table (td_name def) d).
  - injection H as <-. by left.
  - right. split; [reflexivity|].
    destruct (rejects (CreateTable def) d).
    + injection H as <-. by right.
    + destruct (missing_fk_target def d) as [t|]; [|discriminate].
      injection H as <-. left. by exists t.
Qed.


(** X6: [createTable(name)] of a registered name whose table is absent,
    when the engine accepts the creation: the call fulfils, the table
    exists with the definition registered under that name and without
    rows, no other table changes, the existence is checked twice before the
    DDL, and "Table created" is logged. *)
Theorem createTable_creates_registered_definition
    (name : string) (w : World)
    (Hname : name ∈ Registry.registered_names)
    (Habsent : has_table name (db w) = false)
    (Hok : create_error rejects (def_of name) (db w) = None) :
  exists w',
    await (createTable rejects name) w = (Fulfilled Js.Undefined, w')
    /\ Registry.definitionFor name = Some (def_of name)
    /\ db w' = <[name := mkStored (def_of name) []]> (db w)
    /\ (forall other, other <> name -> db w' !! other = db w !! other)
    /\ journal w'
       = journal w ++ [HasTable name; HasTable name; CreateTable (def_of name)]
    /\ log w' = log w ++ [mkLog DebugLevel [LStr (msg_created name)]].
Proof.
  destruct (registered_get name Hname) as [i Hget].
  eexists. split.
  { rewrite (await_createTable_own rejects name i w Hget).
    unfold attempt. rewrite Habsent, Hok. reflexivity. }
  split.
  { unfold def_of. unfold Registry.get in Hget. unfold Registry.definitionFor.
    destruct (list_to_map Registry.createTableInstructions !! name);
      [reflexivity|]. by case_bool_decide. }
  cbn [db after_attempt attempt_db journal log attempt_journal attempt_log].
  split; [reflexivity|]. split; [|by split].
  intros other Hne. by apply lookup_insert_ne.
Qed.


(** X8: [createTable("notifications")] on a database that has neither
    [notifications] nor [requests], with an engine that takes the
    [CREATE TABLE]: the call rejects for the missing foreign-key target
    and leaves [notifications] behind, created with its columns and
    without the foreign key.  A second call then finds the table, logs
    the skip and fulfils, so the foreign key is never added. *)
Theorem createTable_notifications_needs_requests
    (w : World)
    (Hnotif : has_table "notifications" (db w) = false)
    (Hreq : has_table "requests" (db w) = false)
    (Hok : rejects (CreateTable (def_of "notifications")) (db w) = false) :
  exists w1 w2,
    await (createTable rejects "notifications") w
    = (Rejected (ForeignKeyTargetMissing "notifications" "requests"), w1)
    /\ db w1
       = <["notifications" :=
             mkStored (mkTable "notifications"
                         (td_columns (def_of "notifications")) [] [] []) []]>
           (db w)
    /\ length (td_columns (def_of "notifications")) = 6%nat
    /\ await (createTable rejects "notifications") w1
       = (Fulfilled Js.Undefined, w2)
    /\ db w2 = db w1
    /\ log w2
       = log w ++ [mkLog DebugLevel [LStr (msg_already_exists "notifications")]].
Proof.
  assert (Ha : attempt rejects "notifications" (def_of "notifications") (db w)
               = Failed (ForeignKeyTargetMissing "notifications" "requests")).
  { unfold attempt, create_error.
    change (td_name (def_of "notifications")) with "notifications".
    rewrite Hnotif, Hok. unfold missing_fk_target.
    change (map fk_referencesTable (td_foreignKeys (def_of "notifications")))
      with ["requests"].
    cbn [List.find]. by rewrite Hreq. }
  assert (Hleft : left_behind (def_of "notifications")
                    (ForeignKeyTargetMissing "notifications" "requests") (db w)
                  = <["notifications" :=
                        mkStored (mkTable "notifications"
                                    (td_columns (def_of "notifications"))
                                    [] [] []) []]> (db w)).
  { unfold left_behind, half_made.
    change (td_foreignKeys (def_of "notifications"))
      with [mkFK ["case_id"; "phone"] "requests" ["case_id"; "phone"] Cascade].
    cbn [added_foreign_keys fk_referencesTable]. by rewrite Hreq. }
  eexists. eexists. split.
  { rewrite (await_createTable_own rejects "notifications"
               Registry.notifications w eq_refl), Ha, Hleft. reflexivity. }
  cbn [db]. split; [reflexivity|]. split; [reflexivity|].
  rewrite (await_createTable_own rejects "notifications"
             Registry.notifications _ eq_refl).
  unfold attempt. cbn [db]. rewrite has_table_insert.
  split; [reflexivity|]. by split.
Qed.

End CreateTableMore.

Lemma createTable_creates_registered_definition_witness :
  exists w',
    await (createTable accepts_all "hearings") empty_world
    = (Fulfilled Js.Undefined, w')
    /\ db w' = <["hearings" := mkStored (def_of "hearings") []]> (db empty_world).
Proof.
  destruct (createTable_creates_registered_definition accepts_all "hearings"
              empty_world hearings_registered eq_refl eq_refl)
    as (w' & Hrun & _ & Hdb & _).
  exists w'. split; [exact Hrun|exact Hdb].
Defined.


Lemma createTable_notifications_needs_requests_witness :
  exists w1 w2,
    await (createTable accepts_all "notifications") empty_world
    = (Rejected (ForeignKeyTargetMissing "notifications" "requests"), w1)
    /\ has_table "notifications" (db w1) = true
    /\ await (createTable accepts_all "notifications") w1
       = (Fulfilled Js.Undefined, w2).
Proof.
  destruct (createTable_notifications_needs_requests accepts_all empty_world
              eq_refl eq_refl eq_refl)
    as (w1 & w2 & Hrun & Hdb & _ & Hrun2 & _).
  exists w1, w2. split; [exact Hrun|]. split; [|exact Hrun2].
  rewrite Hdb. apply has_table_insert.
Defined.

(** ** More on the provisioning pass *)

Section ProvisioningMore.

Variable rejects : Statement -> gmap string Table -> bool.








(** When every listed table exists, a pass only asks and skips. *)
Lemma provision_pass_all_present names : forall w,
  Forall (fun n => has_table n (db w) = true) names ->
  fold_left (provision rejects) names w
  = mkWorld (db w) (pool w)
            (log w ++ map (fun n => mkLog DebugLevel
                                      [LStr (msg_already_exists n)]) names)
            (journal w ++ map HasTable names).
Proof.
  induction names as [|v rest IH]; intros w Hall.
  - simpl. rewrite !app_nil_r. by destruct w.
  - apply Forall_cons in Hall as [Hv Hrest]. cbn [fold_left].
    assert (Hstep : provision rejects w v
                    = mkWorld (db w) (pool w)
                        (log w ++ [mkLog DebugLevel [LStr (msg_already_exists v)]])
                        (journal w ++ [HasTable v])).
    { unfold provision, attempt. by rewrite Hv. }
    rewrite Hstep, IH by exact Hrest. cbn [db pool log journal map].
    by rewrite <- !app_assoc.
Qed.

Lemma provisioning_statement_weaken v rest s :
  provisioning_statement rest s -> provisioning_statement (v :: rest) s.
Proof.
  intros (n & Hin & Hs). exists n. split; [apply elem_of_cons; by right|exact Hs].
Qed.

(** The statements of a pass: existence checks and creations of the listed
    tables, between one and three per table. *)
Lemma provision_pass_statements names : forall w,
  exists stmts,
    journal (fold_left (provision rejects) names w) = journal w ++ stmts
    /\ Forall (provisioning_statement names) stmts
    /\ (length names <= length stmts <= 3 * length names)%nat.
Proof.
  induction names as [|v rest IH]; intros w.
  - exists []. simpl. rewrite app_nil_r. repeat split; [constructor|lia|lia].
  - cbn [fold_left].
    destruct (IH (provision rejects w v)) as (stmts & Hj & Hall & Hlen).
    exists (attempt_journal v (def_of v)
              (attempt rejects v (def_of v) (db w)) ++ stmts).
    split; [by rewrite Hj, journal_provision, <- app_assoc|].
    assert (Hv : v ∈ v :: rest) by (apply elem_of_cons; by left).
    split.
    + apply Forall_app. split.
      * destruct (attempt rejects v (def_of v) (db w)); cbn [attempt_journal];
          repeat constructor; exists v; (split; [exact Hv|]); auto.
      * eapply Forall_impl; [exact Hall|].
        intros s. apply provisioning_statement_weaken.
    + rewrite length_app. cbn [length].
      destruct (attempt rejects v (def_of v) (db w)); cbn [attempt_journal length];
        lia.
Qed.

Lemma fk_targets_present seen def (d : gmap string Table) :
  fk_targets_among seen def = true ->
  Forall (fun n => has_table n d = true) seen ->
  missing_fk_target def d = None.
Proof.
  unfold fk_targets_among, missing_fk_target. intros Hfk Hseen.
  induction (td_foreignKeys def) as [|fk fks IH]; [reflexivity|].
  cbn [forallb] in Hfk. apply andb_prop in Hfk as [Hin Hrest].
  apply bool_decide_eq_true in Hin.
  cbn [map List.find].
  rewrite (proj1 (Forall_forall _ _) Hseen _ Hin). cbn [negb].
  by apply IH.
Qed.

(** A pass over registered names in an order that puts every table after
    the targets of its foreign keys, with an engine that refuses none of
    the creations, leaves every listed table in place. *)
Lemma provision_pass_creates_all names : forall seen w,
  Forall (fun v => exists i, Registry.get v = Registry.Own i) names ->
  fk_targets_before seen names = true ->
  (forall n d, n ∈ names -> rejects (CreateTable (def_of n)) d = false) ->
  Forall (fun n => has_table n (db w) = true) seen ->
  Forall (fun n => has_table n (db (fold_left (provision rejects) names w)) = true)
         (names ++ seen).
Proof.
  induction names as [|v rest IH]; intros seen w Hreg Hfk Hok Hseen;
    [exact Hseen|].
  apply Forall_cons in Hreg as [[i Hget] Hreg].
  cbn [fk_targets_before] in Hfk. apply andb_prop in Hfk as [Hv Hfk].
  cbn [fold_left].
  assert (Hnew : has_table v (db (provision rejects w v)) = true).
  { unfold provision, after_attempt, attempt. cbn [db].
    destruct (has_table v (db w)) eqn:Hex; [exact Hex|].
    unfold create_error. rewrite (def_of_name v i Hget), Hex.
    rewrite (fk_targets_present seen _ _ Hv Hseen).
    rewrite Hok by (apply elem_of_cons; by left).
    cbn [attempt_db]. apply has_table_insert. }
  assert (Hseen' : Forall (fun n => has_table n (db (provision rejects w v)) = true)
                          (v :: seen)).
  { constructor; [exact Hnew|].
    eapply Forall_impl; [exact Hseen|].
    intros n Hn. by apply provision_keeps_table. }
  specialize (IH (v :: seen) (provision rejects w v) Hreg Hfk).
  assert (Hok' : forall n d, n ∈ rest -> rejects (CreateTable (def_of n)) d = false).
  { intros n d Hn. apply Hok. apply elem_of_cons. by right. }
  specialize (IH Hok' Hseen').
  apply Forall_app in IH as [Hrest Hvs].
  apply Forall_cons in Hvs as [Hv' Hs].
  apply Forall_app. split; [by constructor|exact Hs].
Qed.

End ProvisioningMore.


(** The engine refuses to create [requests]: the pass leaves
    [notifications] behind without its foreign key. *)
Example ensureTablesExist_leaves_notifications_half_made :
  db (await (ensureTablesExist (refuses_create "requests")) empty_world).2
     !! "notifications"
  = Some (mkStored (mkTable "notifications"
                      (td_columns (def_of "notifications")) [] [] []) [])
  /\ map (fun n => has_table n
            (db (await (ensureTablesExist (refuses_create "requests"))
                       empty_world).2)) tables
     = [false; true; true; true; true].
Proof. split; vm_compute; reflexivity. Qed.

(** X10: the statements [ensureTablesExist] sends are existence checks and
    creations of the five listed tables with their registered definitions,
    at least five and at most fifteen of them: it never drops a table,
    inserts a row or opens a transaction. *)
Theorem ensureTablesExist_only_checks_and_creates
    (rejects : Statement -> gmap string Table -> bool) (w : World) :
  exists w' stmts,
    await (ensureTablesExist rejects) w = (Fulfilled Js.Undefined, w')
    /\ journal w' = journal w ++ stmts
    /\ Forall (provisioning_statement tables) stmts
    /\ (5 <= length stmts <= 15)%nat.
Proof.
  destruct (provision_pass_statements rejects tables w)
    as (stmts & Hj & Hall & Hlen).
  exists (fold_left (provision rejects) tables w), stmts.
  split; [apply ensureTablesExist_run|]. split; [exact Hj|].
  split; [exact Hall|exact Hlen].
Qed.

(** X11: when the five tables exist already, [ensureTablesExist] changes
    nothing in the database: it sends five existence checks, one per
    table and in order, and logs five skip lines. *)
Theorem ensureTablesExist_all_present_changes_nothing
    (rejects : Statement -> gmap string Table -> bool) (w : World)
    (Hall : Forall (fun n => has_table n (db w) = true) tables) :
  exists w',
    await (ensureTablesExist rejects) w = (Fulfilled Js.Undefined, w')
    /\ db w' = db w
    /\ journal w' = journal w ++ map HasTable tables
    /\ log w'
       = log w
         ++ map (fun n => mkLog DebugLevel [LStr (msg_already_exists n)]) tables.
Proof.
  eexists. split; [apply ensureTablesExist_run|].
  rewrite (provision_pass_all_present rejects tables w Hall). by repeat split.
Qed.

(** In such a pass no attempt fails. *)
Lemma provision_pass_none_failed
    (rejects : Statement -> gmap string Table -> bool) names :
  forall seen w,
    Forall (fun v => exists i, Registry.get v = Registry.Own i) names ->
    fk_targets_before seen names = true ->
    (forall n d, n ∈ names -> rejects (CreateTable (def_of n)) d = false) ->
    Forall (fun n => has_table n (db w) = true) seen ->
    Forall (fun a => a = Skipped \/ a = Created) (attempts rejects names w).
Proof.
  induction names as [|v rest IH]; intros seen w Hreg Hfk Hok Hseen;
    [constructor|].
  apply Forall_cons in Hreg as [[i Hget] Hreg].
  cbn [fk_targets_before] in Hfk. apply andb_prop in Hfk as [Hv Hfk].
  cbn [attempts].
  assert (Hv_in : v ∈ v :: rest) by (apply elem_of_cons; by left).
  assert (Hnow : attempt rejects v (def_of v) (db w) = Skipped
                 \/ attempt rejects v (def_of v) (db w) = Created).
  { unfold attempt. destruct (has_table v (db w)) eqn:Hex; [by left|].
    unfold create_error. rewrite (def_of_name v i Hget), Hex.
    rewrite (fk_targets_present seen _ _ Hv Hseen), (Hok v _ Hv_in).
    by right. }
  constructor; [exact Hnow|].
  apply (IH (v :: seen)); [exact Hreg|exact Hfk| |].
  - intros n d Hn. apply Hok. apply elem_of_cons. by right.
  - constructor.
    + unfold provision. destruct Hnow as [Ha|Ha]; rewrite Ha;
        cbn [after_attempt db attempt_db].
      * unfold attempt in Ha. destruct (has_table v (db w)); [reflexivity|].
        by destruct (create_error rejects (def_of v) (db w)).
      * apply has_table_insert.
    + eapply Forall_impl; [exact Hseen|].
      intros n Hn. by apply provision_keeps_table.
Qed.

(** X12: with an engine that refuses none of the five creations,
    [ensureTablesExist] leaves all five tables in place, on any database,
    and no attempt fails: the order of the list puts [requests] before
    [notifications], so the foreign key finds its target. *)
Theorem ensureTablesExist_accepting_engine_creates_all
    (rejects : Statement -> gmap string Table -> bool) (w : World)
    (Hok : forall n d, n ∈ tables ->
                       rejects (CreateTable (def_of n)) d = false) :
  exists w',
    await (ensureTablesExist rejects) w = (Fulfilled Js.Undefined, w')
    /\ Forall (fun n => has_table n (db w') = true) tables
    /\ Forall (fun a => a = Skipped \/ a = Created) (attempts rejects tables w).
Proof.
  exists (fold_left (provision rejects) tables w).
  split; [apply ensureTablesExist_run|]. split.
  - pose proof (provision_pass_creates_all rejects tables [] w
                  tables_registered eq_refl Hok (Forall_nil_2 _)) as H.
    by rewrite app_nil_r in H.
  - apply (provision_pass_none_failed rejects tables [] w
             tables_registered eq_refl Hok).
    constructor.
Qed.

(** X13: with such an engine a second pass changes nothing: the database
    after two calls of [ensureTablesExist] is the database after one. *)
Theorem ensureTablesExist_twice_same_database
    (rejects : Statement -> gmap string Table -> bool) (w : World)
    (Hok : forall n d, n ∈ tables ->
                       rejects (CreateTable (def_of n)) d = false) :
  exists w1 w2,
    await (ensureTablesExist rejects) w = (Fulfilled Js.Undefined, w1)
    /\ await (ensureTablesExist rejects) w1 = (Fulfilled Js.Undefined, w2)
    /\ db w2 = db w1
    /\ journal w2 = journal w1 ++ map HasTable tables.
Proof.
  exists (fold_left (provision rejects) tables w).
  eexists. split; [apply ensureTablesExist_run|].
  split; [apply ensureTablesExist_run|].
  assert (Hall : Forall (fun n => has_table n
                   (db (fold_left (provision rejects) tables w)) = true) tables).
  { pose proof (provision_pass_creates_all rejects tables [] w
                  tables_registered eq_refl Hok (Forall_nil_2 _)) as H.
    by rewrite app_nil_r in H. }
  rewrite (provision_pass_all_present rejects tables _ Hall). by split.
Qed.

(** X14: the order is what matters, not the list: a pass over any registered
    names in an order that puts every table after the targets of its
    foreign keys, with an engine that refuses none of their creations,
    fulfils and leaves every listed table in place. *)
Theorem ensure_over_fk_order_creates_all
    (rejects : Statement -> gmap string Table -> bool)
    (names : list string) (w : World)
    (Hreg : Forall (fun v => v ∈ Registry.registered_names) names)
    (Hfk : fk_targets_before [] names = true)
    (Hok : forall n d, n ∈ names ->
                       rejects (CreateTable (def_of n)) d = false) :
  exists w',
    ensure_over rejects names w = (Fulfilled Js.Undefined, w')
    /\ Forall (fun n => has_table n (db w') = true) names.
Proof.
  assert (Hown : Forall (fun v => exists i, Registry.get v = Registry.Own i)
                        names).
  { eapply Forall_impl; [exact Hreg|]. intros v. apply registered_get. }
  exists (fold_left (provision rejects) names w).
  split; [by apply ensure_over_registered|].
  pose proof (provision_pass_creates_all rejects names [] w
                Hown Hfk Hok (Forall_nil_2 _)) as H.
  by rewrite app_nil_r in H.
Qed.

Lemma tables_all_present_after_pass :
  Forall (fun n => has_table n
            (db (await (ensureTablesExist accepts_all) empty_world).2) = true)
         tables.
Proof. repeat constructor. Qed.

Lemma ensureTablesExist_all_present_changes_nothing_witness :
  exists w',
    await (ensureTablesExist accepts_all)
          (await (ensureTablesExist accepts_all) empty_world).2
    = (Fulfilled Js.Undefined, w')
    /\ db w' = db (await (ensureTablesExist accepts_all) empty_world).2.
Proof.
  destruct (ensureTablesExist_all_present_changes_nothing accepts_all
              (await (ensureTablesExist accepts_all) empty_world).2
              tables_all_present_after_pass)
    as (w' & Hrun & Hdb & _).
  exists w'. split; [exact Hrun|exact Hdb].
Defined.

Lemma ensureTablesExist_accepting_engine_creates_all_witness :
  exists w',
    await (ensureTablesExist accepts_all) empty_world
    = (Fulfilled Js.Undefined, w')
    /\ Forall (fun n => has_table n (db w') = true) tables.
Proof.
  destruct (ensureTablesExist_accepting_engine_creates_all accepts_all
              empty_world (fun _ _ _ => eq_refl))
    as (w' & Hrun & Hall & _).
  exists w'. split; [exact Hrun|exact Hall].
Defined.

Lemma ensureTablesExist_twice_same_database_witness :
  exists w1 w2,
    await (ensureTablesExist accepts_all) empty_world
    = (Fulfilled Js.Undefined, w1)
    /\ await (ensureTablesExist accepts_all) w1 = (Fulfilled Js.Undefined, w2)
    /\ db w2 = db w1.
Proof.
  destruct (ensureTablesExist_twice_same_database accepts_all
              empty_world (fun _ _ _ => eq_refl))
    as (w1 & w2 & H1 & H2 & Hdb & _).
  exists w1, w2. split; [exact H1|]. split; [exact H2|exact Hdb].
Defined.

(** The source's order, and the order with the independent [hearings]
    moved to the end, both respect the foreign key. *)
Lemma ensure_over_fk_order_creates_all_witness :
  fk_targets_before [] tables = true
  /\ exists w',
      ensure_over accepts_all
        ["requests"; "notifications"; "log_runners"; "log_hits"; "hearings"]
        empty_world
      = (Fulfilled Js.Undefined, w')
      /\ Forall (fun n => has_table n (db w') = true)
                ["requests"; "notifications"; "log_runners"; "log_hits";
                 "hearings"].
Proof.
  split; [reflexivity|].
  apply (ensure_over_fk_order_creates_all accepts_all
           ["requests"; "notifications"; "log_runners"; "log_hits"; "hearings"]
           empty_world).
  - repeat constructor; apply list_elem_of_In; vm_compute; tauto.
  - reflexivity.
  - intros n d _. reflexivity.
Defined.

(** ** More on the registry *)

(** X15: the registry is consistent with itself: the method found under a
    name creates the table of that very name, so the existence check of
    [createTable] and the one inside the method ask about the same table,
    and the definition it builds is the one registered under the name. *)
Theorem registry_method_creates_its_own_table
    (name : string) (i : Registry.Instruction)
    (Hget : Registry.get name = Registry.Own i) :
  Registry.i_table i = name
  /\ Registry.definitionFor name = Some (Registry.definition_of i)
  /\ td_name (Registry.definition_of i) = name
  /\ name ∈ tables.
Proof.
  split; [by apply get_own_table|].
  pose proof (get_own_def name i Hget) as Hdef.
  pose proof (def_of_name name i Hget) as Hname.
  rewrite Hdef in Hname. split; [|split; [exact Hname|]].
  - unfold Registry.get in Hget. unfold Registry.definitionFor.
    destruct (list_to_map Registry.createTableInstructions !! name) as [j|];
      [by injection Hget as ->|by case_bool_decide].
  - apply get_own_inv in Hget. unfold Registry.createTableInstructions in Hget.
    repeat (apply elem_of_cons in Hget as [[= -> _]|Hget];
            [apply list_elem_of_In; vm_compute; tauto|]).
    by apply elem_of_nil in Hget.
Qed.

Lemma registry_method_creates_its_own_table_witness :
  Registry.i_table Registry.notifications = "notifications"
  /\ Registry.definitionFor "notifications"
     = Some (Registry.definition_of Registry.notifications).
Proof.
  destruct (registry_method_creates_its_own_table "notifications"
              Registry.notifications eq_refl) as (Ht & Hd & _).
  split; [exact Ht|exact Hd].
Defined.

(** X16: every registered definition is well formed: no column is declared
    twice, the primary key, the indexes and the foreign keys name columns
    the table has, and every foreign key points to a registered table and
    references exactly that table's primary key. *)
Theorem registered_definitions_well_formed
    (name : string) (Hname : name ∈ Registry.registered_names) :
  well_formed (def_of name) = true
  /\ forallb references_primary_key (td_foreignKeys (def_of name)) = true
  /\ Forall (fun fk => fk_referencesTable fk ∈ Registry.registered_names)
            (td_foreignKeys (def_of name)).
Proof.
  unfold Registry.registered_names, Registry.createTableInstructions in Hname.
  simpl in Hname.
  repeat (apply elem_of_cons in Hname as [->|Hname];
          [split; [vm_compute; reflexivity|];
           split; [vm_compute; reflexivity|];
           repeat constructor; apply list_elem_of_In; vm_compute; tauto|]).
  by apply elem_of_nil in Hname.
Qed.

Lemma notifications_registered : "notifications" ∈ Registry.registered_names.
Proof. apply list_elem_of_In. vm_compute. tauto. Qed.

Lemma registered_definitions_well_formed_witness :
  well_formed (def_of "notifications") = true
  /\ forallb references_primary_key (td_foreignKeys (def_of "notifications"))
     = true.
Proof.
  destruct (registered_definitions_well_formed "notifications"
              notifications_registered) as (Hwf & Hpk & _).
  split; [exact Hwf|exact Hpk].
Defined.

(** ** More on batch insert *)

Lemma chunk_fuel_sizes {A} (n : nat) : forall (fuel : nat) (l : list A),
  (0 < n)%nat ->
  Forall (fun c => (1 <= length c <= n)%nat) (chunk_fuel fuel n l).
Proof.
  induction fuel as [|fuel IH]; intros l Hn; [constructor|].
  destruct l as [|x l]; [constructor|].
  cbn [chunk_fuel]. constructor; [|by apply IH].
  rewrite length_take. simpl. lia.
Qed.

Lemma chunk_sizes {A} (n : nat) (l : list A) :
  (0 < n)%nat -> Forall (fun c => (1 <= length c <= n)%nat) (chunk n l).
Proof. intros Hn. by apply chunk_fuel_sizes. Qed.

Lemma delete_append_rows table rows (d : gmap string Table) :
  delete table (append_rows table rows d) = delete table d.
Proof.
  unfold append_rows. destruct (d !! table); [apply delete_insert_eq|reflexivity].
Qed.

(** Every way a call of [batchInsert] can end. *)
Lemma batchInsert_outcome
    (rejects : Statement -> gmap string Table -> bool)
    table rows size w :
  exists r w' cs last,
    await (batchInsert rejects table rows size) w = (r, w')
    /\ pool w' = pool w
    /\ log w'
       = log w ++ [mkLog DebugLevel [LStr "batch inserting";
                                     LNum (Z.of_nat (length rows));
                                     LStr "rows"]]
    /\ journal w' = journal w ++ Begin :: map (Insert table) cs ++ [last]
    /\ Forall (fun c => (1 <= length c)%nat /\ Z.of_nat (length c) <= size) cs
    /\ concat cs `prefix_of` rows
    /\ ((r = Fulfilled Js.Undefined /\ last = Commit /\ concat cs = rows
         /\ db w' = append_rows table rows (db w))
        \/ (exists e, r = Rejected e /\ last = Rollback /\ db w' = db w)).
Proof.
  destruct (size <? 1) eqn:Hsize.
  { exists (Rejected (TypeError "Invalid chunkSize")).
    eexists. exists [], Rollback.
    split; [by apply batchInsert_invalid_size|]. cbn [pool log journal db].
    repeat split; try done; [by exists rows|].
    right. by eexists. }
  rewrite (batchInsert_run rejects table rows size w Hsize).
  assert (Hn : (0 < Z.to_nat size)%nat) by (apply Z.ltb_ge in Hsize; lia).
  pose proof (chunk_sizes (Z.to_nat size) rows Hn) as Hsizes.
  assert (Hbound : Forall (fun c : list Row =>
                      (1 <= length c)%nat /\ Z.of_nat (length c) <= size)
                          (chunk (Z.to_nat size) rows)).
  { eapply Forall_impl; [exact Hsizes|]. intros c Hc. simpl in Hc. lia. }
  match goal with
  | |- context [insert_chunks rejects table ?cs ?st] =>
      pose proof (insert_chunks_run rejects table cs st) as H;
      destruct (insert_chunks rejects table cs st) as [[v|e] st']
  end; cbn [tx_world tx_snapshot tx_outcome] in H.
  - destruct H as (-> & _ & _ & Hp & Hl & Hd & Hj & _).
    exists (Fulfilled Js.Undefined), (record Commit (tx_world st')),
      (chunk (Z.to_nat size) rows), Commit.
    split; [reflexivity|]. cbn [record pool log journal db].
    rewrite Hp, Hl, Hj, Hd, chunk_concat by exact Hn.
    unfold record, logger_debug, write_log. cbn [pool log journal db].
    repeat split; try done.
    + by rewrite <- !app_assoc.
    + left. by repeat split.
  - destruct H as (_ & _ & Hp & Hl & [k Hj] & _).
    exists (Rejected e), (record Rollback (set_db (db w) (tx_world st'))),
      (take k (chunk (Z.to_nat size) rows)), Rollback.
    split; [reflexivity|]. cbn [record set_db pool log journal db].
    rewrite Hp, Hl, Hj.
    unfold record, logger_debug, write_log. cbn [pool log journal db].
    repeat split; try done.
    + by rewrite <- !app_assoc.
    + by apply Forall_take.
    + exists (concat (drop k (chunk (Z.to_nat size) rows))).
      rewrite <- concat_app, take_drop. symmetry. by apply chunk_concat.
    + right. by eexists.
Qed.

(** X17: [batchInsert] never touches another table: whether it commits or
    rolls back, the database without [table] is what it was, and the pool
    is as it was. *)
Theorem batchInsert_other_tables_untouched
    (rejects : Statement -> gmap string Table -> bool)
    (table : string) (rows : list Row) (size : Z) (w : World) :
  exists r w',
    await (batchInsert rejects table rows size) w = (r, w')
    /\ delete table (db w') = delete table (db w)
    /\ dom (db w') = dom (db w)
    /\ pool w' = pool w.
Proof.
  destruct (batchInsert_outcome rejects table rows size w)
    as (r & w' & cs & last & Hrun & Hp & _ & _ & _ & _ & Hcase).
  exists r, w'. split; [exact Hrun|].
  destruct Hcase as [(_ & _ & _ & ->)|(e & _ & _ & ->)]; [|by repeat split].
  split; [apply delete_append_rows|]. split; [|exact Hp].
  unfold append_rows. destruct (db w !! table) eqn:E; [|reflexivity].
  rewrite dom_insert_L. apply elem_of_dom_2 in E.
  apply subseteq_union_1_L. by apply singleton_subseteq_l.
Qed.

(** X18: [batchInsert] logs one debug line, with the number of rows, and
    nothing else: a failed batch is reported to the caller through the
    rejection, not to the log. *)
Theorem batchInsert_logs_only_the_row_count
    (rejects : Statement -> gmap string Table -> bool)
    (table : string) (rows : list Row) (size : Z) (w : World) :
  log (await (batchInsert rejects table rows size) w).2
  = log w ++ [mkLog DebugLevel [LStr "batch inserting";
                                LNum (Z.of_nat (length rows)); LStr "rows"]].
Proof.
  destruct (batchInsert_outcome rejects table rows size w)
    as (r & w' & cs & last & Hrun & _ & Hl & _).
  by rewrite Hrun.
Qed.

(** X20: the chunk size does not show in the result: two calls on the same
    world with the same rows and different chunk sizes, if both fulfil,
    leave the same database. *)
Theorem batchInsert_chunk_size_does_not_show
    (rejects : Statement -> gmap string Table -> bool)
    (table : string) (rows : list Row) (size1 size2 : Z)
    (w w1 w2 : World) (v1 v2 : Js.value)
    (H1 : await (batchInsert rejects table rows size1) w = (Fulfilled v1, w1))
    (H2 : await (batchInsert rejects table rows size2) w = (Fulfilled v2, w2)) :
  db w1 = db w2 /\ db w1 = append_rows table rows (db w).
Proof.
  destruct (batchInsert_outcome rejects table rows size1 w)
    as (r1 & w1' & cs1 & last1 & Hrun1 & _ & _ & _ & _ & _ & Hcase1).
  destruct (batchInsert_outcome rejects table rows size2 w)
    as (r2 & w2' & cs2 & last2 & Hrun2 & _ & _ & _ & _ & _ & Hcase2).
  rewrite H1 in Hrun1. rewrite H2 in Hrun2.
  injection Hrun1 as <- <-. injection Hrun2 as <- <-.
  destruct Hcase1 as [(_ & _ & _ & Hd1)|(e & He & _)]; [|discriminate].
  destruct Hcase2 as [(_ & _ & _ & Hd2)|(e & He & _)]; [|discriminate].
  split; [by rewrite Hd1, Hd2|exact Hd1].
Qed.

(** X21: rows for a table that does not exist: with a chunk size of at least
    one, [batchInsert] rejects with the engine's "no such table" after the
    first insert, rolls back, and the database is as it was. *)
Theorem batchInsert_missing_table_rejects
    (rejects : Statement -> gmap string Table -> bool)
    (table : string) (rows : list Row) (size : Z) (w : World)
    (Hrows : rows <> [])
    (Hsize : 1 <= size)
    (Habsent : has_table table (db w) = false) :
  exists w',
    await (batchInsert rejects table rows size) w
    = (Rejected (RelationMissing table), w')
    /\ db w' = db w
    /\ journal w'
       = journal w
         ++ [Begin; Insert table (take (Z.to_nat size) rows); Rollback].
Proof.
  assert (Hs : (size <? 1) = false) by (apply Z.ltb_ge; lia).
  rewrite (batchInsert_run rejects table rows size w Hs).
  destruct rows as [|r rows]; [done|].
  unfold chunk. cbn [length chunk_fuel insert_chunks].
  unfold tx_execute, execute, insert_error. cbn [tx_world record db logger_debug write_log].
  rewrite Habsent. cbn [negb].
  eexists. split; [reflexivity|]. cbn [record set_db db journal tx_world].
  split; [reflexivity|]. by rewrite <- !app_assoc.
Qed.

Lemma batchInsert_chunk_size_does_not_show_witness :
  db (await (batchInsert accepts_all "hearings"
               [[("case_id", Js.Num 1)]; [("case_id", Js.Num 2)];
                [("case_id", Js.Num 3)]] 1)
            (await (createTable accepts_all "hearings") empty_world).2).2
  = db (await (batchInsert accepts_all "hearings"
                 [[("case_id", Js.Num 1)]; [("case_id", Js.Num 2)];
                  [("case_id", Js.Num 3)]] 2)
              (await (createTable accepts_all "hearings") empty_world).2).2.
Proof.
  set (w := (await (createTable accepts_all "hearings") empty_world).2).
  set (rows := [[("case_id", Js.Num 1)]; [("case_id", Js.Num 2)];
                [("case_id", Js.Num 3)]] : list Row).
  assert (H1 : await (batchInsert accepts_all "hearings" rows 1) w
               = (Fulfilled Js.Undefined,
                  (await (batchInsert accepts_all "hearings" rows 1) w).2)).
  { vm_compute. reflexivity. }
  assert (H2 : await (batchInsert accepts_all "hearings" rows 2) w
               = (Fulfilled Js.Undefined,
                  (await (batchInsert accepts_all "hearings" rows 2) w).2)).
  { vm_compute. reflexivity. }
  exact (proj1 (batchInsert_chunk_size_does_not_show accepts_all "hearings"
                  rows 1 2 w _ _ Js.Undefined Js.Undefined H1 H2)).
Defined.

Lemma batchInsert_missing_table_rejects_witness :
  exists w',
    await (batchInsert accepts_all "hearings" [[("case_id", Js.Num 1)]] 2)
          empty_world
    = (Rejected (RelationMissing "hearings"), w')
    /\ db w' = db empty_world.
Proof.
  assert (Hrows : [[("case_id", Js.Num 1)]] <> ([] : list Row))
    by discriminate.
  destruct (batchInsert_missing_table_rejects accepts_all "hearings"
              [[("case_id", Js.Num 1)]] 2 empty_world Hrows
              (proj1 (Z.leb_le 1 2) eq_refl) eq_refl)
    as (w' & Hrun & Hdb & _).
  exists w'. split; [exact Hrun|exact Hdb].
Defined.

(** ** Borrowing and returning a connection *)

Lemma pool_acquire_live p :
  p_destroyed p = false ->
  pool_consistent p ->
  exists c,
    pool_acquire p = Some (c, mkPool false (p_idle p ∖ {[c]}) (p_used p ∪ {[c]}))
    /\ c ∉ p_used p.
Proof.
  intros Hlive Hcons. unfold pool_acquire. rewrite Hlive.
  destruct (elements (p_idle p)) as [|c l] eqn:E.
  - exists (fresh (p_used p)). split; [reflexivity|apply is_fresh].
  - exists c. split; [reflexivity|].
    assert (Hc : c ∈ p_idle p).
    { apply elem_of_elements. rewrite E. apply elem_of_cons. by left. }
    intros Hused. by apply (Hcons c).
Qed.

(** X22: on a live pool, [acquireSingleConnection] hands out a connection
    that was not checked out before and is checked out now; giving that
    handle to [closeConnection] puts it back: the checked-out connections
    are again those from before the borrowing, the connection is idle, and
    the database was never touched. *)
Theorem acquire_then_closeConnection_returns_it
    (w : World)
    (Hlive : p_destroyed (pool w) = false)
    (Hcons : pool_consistent (pool w)) :
  exists c w1 w2,
    await acquireSingleConnection w = (Fulfilled (Js.Conn c), w1)
    /\ (c ∉ p_used (pool w))
    /\ p_used (pool w1) = p_used (pool w) ∪ {[c]}
    /\ (c ∉ p_idle (pool w1))
    /\ await (closeConnection (Js.Conn c)) w1 = (Fulfilled Js.Undefined, w2)
    /\ p_used (pool w2) = p_used (pool w)
    /\ p_idle (pool w2) = p_idle (pool w) ∪ {[c]}
    /\ pool_consistent (pool w2)
    /\ db w2 = db w.
Proof.
  destruct (pool_acquire_live (pool w) Hlive Hcons) as (c & Hacq & Hfresh).
  exists c. eexists. eexists.
  split.
  { unfold await, acquireSingleConnection, adopt, client_acquireConnection.
    rewrite Hacq. reflexivity. }
  split; [exact Hfresh|]. cbn [set_pool pool p_used p_idle].
  split; [reflexivity|].
  split; [rewrite elem_of_difference, elem_of_singleton; tauto|].
  split; [apply closeConnection_handle|].
  cbn [set_pool pool db]. unfold pool_release. cbn [p_used p_idle p_destroyed].
  rewrite bool_decide_eq_true_2
    by (rewrite elem_of_union, elem_of_singleton; tauto).
  cbn [p_used p_idle]. unfold pool_consistent. cbn [p_used p_idle].
  assert (Hused : (p_used (pool w) ∪ {[c]}) ∖ {[c]} = p_used (pool w)).
  { apply set_eq. intros x.
    rewrite elem_of_difference, elem_of_union, elem_of_singleton.
    split; [tauto|]. intros Hx. split; [by left|]. by intros ->. }
  assert (Hidle : p_idle (pool w) ∖ {[c]} ∪ {[c]} = p_idle (pool w) ∪ {[c]}).
  { apply set_eq. intros x.
    rewrite !elem_of_union, elem_of_difference, elem_of_singleton.
    destruct (decide (x = c)); tauto. }
  rewrite Hused, Hidle. repeat split; try reflexivity.
  intros x. rewrite elem_of_union, elem_of_singleton.
  intros [Hx| ->] Hu; [by apply (Hcons x)|by apply Hfresh].
Qed.

Lemma acquire_then_closeConnection_returns_it_witness :
  exists c w1 w2,
    await acquireSingleConnection
          (mkWorld ∅ (mkPool false {[3%nat]} {[1%nat; 2%nat]}) [] [])
    = (Fulfilled (Js.Conn c), w1)
    /\ await (closeConnection (Js.Conn c)) w1 = (Fulfilled Js.Undefined, w2)
    /\ p_used (pool w2) = {[1%nat; 2%nat]}.
Proof.
  assert (Hcons : pool_consistent (mkPool false {[3%nat]} {[1%nat; 2%nat]})).
  { unfold pool_consistent. cbn [p_idle p_used]. intros x.
    rewrite elem_of_singleton, elem_of_union, !elem_of_singleton.
    intros -> [H|H]; discriminate H. }
  destruct (acquire_then_closeConnection_returns_it
              (mkWorld ∅ (mkPool false {[3%nat]} {[1%nat; 2%nat]}) [] [])
              eq_refl Hcons)
    as (c & w1 & w2 & Hacq & _ & _ & _ & Hclose & Hused & _).
  exists c, w1, w2. split; [exact Hacq|]. split; [exact Hclose|exact Hused].
Defined.

(** ** Batches that go through *)

Lemma has_table_append_rows table rows (d : gmap string Table) :
  has_table table (append_rows table rows d) = has_table table d.
Proof.
  unfold append_rows. destruct (d !! table) as [t|] eqn:E; [|reflexivity].
  rewrite has_table_insert. symmetry. unfold has_table.
  apply bool_decide_eq_true. rewrite E. by eexists.
Qed.

(** X23: when the table exists, the chunk size is at least one and the
    engine takes every chunk of this call, [batchInsert] fulfils: the
    table keeps its definition and its rows and has the new rows after
    them, in their order, so its row count grows by the length of
    [rows]. *)
Theorem batchInsert_accepted_rows_are_appended
    (rejects : Statement -> gmap string Table -> bool)
    (table : string) (rows : list Row) (size : Z) (w : World) (t : Table)
    (Hsize : 1 <= size)
    (Htable : db w !! table = Some t)
    (Hok : first_failure rejects table (chunk (Z.to_nat size) rows) (db w)
           = None) :
  exists w',
    await (batchInsert rejects table rows size) w = (Fulfilled Js.Undefined, w')
    /\ db w' !! table = Some (mkStored (t_def t) (t_rows t ++ rows))
    /\ (forall t', db w' !! table = Some t' ->
                   length (t_rows t') = (length (t_rows t) + length rows)%nat).
Proof.
  assert (Hs : (size <? 1) = false) by (apply Z.ltb_ge; lia).
  assert (Hn : (0 < Z.to_nat size)%nat) by lia.
  rewrite (batchInsert_run rejects table rows size w Hs).
  rewrite insert_chunks_first_failure.
  cbn [tx_world db pool log journal record logger_debug write_log].
  rewrite Hok. eexists. split; [reflexivity|].
  cbn [record db tx_world]. rewrite chunk_concat by exact Hn.
  unfold append_rows. rewrite Htable, lookup_insert_eq.
  split; [reflexivity|].
  intros t' [= <-]. cbn [t_rows]. apply length_app.
Qed.

(** X24: two batches one after the other, both fulfilled, leave the database
    that one batch with all the rows would: the table holds the rows of
    the first batch, then those of the second. *)
Theorem batchInsert_twice_appends_both
    (rejects : Statement -> gmap string Table -> bool)
    (table : string) (rows1 rows2 : list Row) (size1 size2 : Z)
    (w w1 w2 : World) (v1 v2 : Js.value)
    (H1 : await (batchInsert rejects table rows1 size1) w = (Fulfilled v1, w1))
    (H2 : await (batchInsert rejects table rows2 size2) w1 = (Fulfilled v2, w2)) :
  db w2 = append_rows table (rows1 ++ rows2) (db w).
Proof.
  destruct (batchInsert_outcome rejects table rows1 size1 w)
    as (r1 & w1' & cs1 & last1 & Hrun1 & _ & _ & _ & _ & _ & Hcase1).
  destruct (batchInsert_outcome rejects table rows2 size2 w1)
    as (r2 & w2' & cs2 & last2 & Hrun2 & _ & _ & _ & _ & _ & Hcase2).
  rewrite H1 in Hrun1. rewrite H2 in Hrun2.
  injection Hrun1 as <- <-. injection Hrun2 as <- <-.
  destruct Hcase1 as [(_ & _ & _ & Hd1)|(e & He & _)]; [|discriminate].
  destruct Hcase2 as [(_ & _ & _ & Hd2)|(e & He & _)]; [|discriminate].
  by rewrite Hd2, Hd1, append_rows_app.
Qed.

(** Three requests with distinct keys, in chunks of two, with an engine
    that refuses a row the batch does not hold. *)
Lemma batchInsert_accepted_rows_are_appended_witness :
  exists w',
    await (batchInsert
             (refuses_row [("case_id", Js.Str "A9"); ("phone", Js.Str "9")])
             "requests"
             [[("case_id", Js.Str "A1"); ("phone", Js.Str "+19075550101")];
              [("case_id", Js.Str "A2"); ("phone", Js.Str "+19075550102")];
              [("case_id", Js.Str "A3"); ("phone", Js.Str "+19075550103")]] 2)
          (mkWorld {["requests" := mkStored (def_of "requests") []]}
                   (pool empty_world) [] [])
    = (Fulfilled Js.Undefined, w')
    /\ db w' !! "requests"
       = Some (mkStored (def_of "requests")
                 [[("case_id", Js.Str "A1"); ("phone", Js.Str "+19075550101")];
                  [("case_id", Js.Str "A2"); ("phone", Js.Str "+19075550102")];
                  [("case_id", Js.Str "A3"); ("phone", Js.Str "+19075550103")]]).
Proof.
  assert (Hok : first_failure
                  (refuses_row [("case_id", Js.Str "A9"); ("phone", Js.Str "9")])
                  "requests"
                  (chunk (Z.to_nat 2)
                     [[("case_id", Js.Str "A1"); ("phone", Js.Str "+19075550101")];
                      [("case_id", Js.Str "A2"); ("phone", Js.Str "+19075550102")];
                      [("case_id", Js.Str "A3"); ("phone", Js.Str "+19075550103")]])
                  {["requests" := mkStored (def_of "requests") []]}
                = None).
  { vm_compute. reflexivity. }
  assert (Htable : db (mkWorld {["requests" := mkStored (def_of "requests") []]}
                               (pool empty_world) [] []) !! "requests"
                   = Some (mkStored (def_of "requests") [])).
  { apply lookup_singleton_eq. }
  destruct (batchInsert_accepted_rows_are_appended
              (refuses_row [("case_id", Js.Str "A9"); ("phone", Js.Str "9")])
              "requests"
              [[("case_id", Js.Str "A1"); ("phone", Js.Str "+19075550101")];
               [("case_id", Js.Str "A2"); ("phone", Js.Str "+19075550102")];
               [("case_id", Js.Str "A3"); ("phone", Js.Str "+19075550103")]] 2
              (mkWorld {["requests" := mkStored (def_of "requests") []]}
                       (pool empty_world) [] [])
              (mkStored (def_of "requests") [])
              (proj1 (Z.leb_le 1 2) eq_refl) Htable Hok)
    as (w' & Hrun & Hrows & _).
  exists w'. split; [exact Hrun|exact Hrows].
Defined.

Lemma batchInsert_twice_appends_both_witness :
  db (await (batchInsert accepts_all "hearings" [[("case_id", Js.Num 2)]] 1)
        (await (batchInsert accepts_all "hearings" [[("case_id", Js.Num 1)]] 1)
           (await (createTable accepts_all "hearings") empty_world).2).2).2
  = append_rows "hearings" [[("case_id", Js.Num 1)]; [("case_id", Js.Num 2)]]
      (db (await (createTable accepts_all "hearings") empty_world).2).
Proof.
  set (w := (await (createTable accepts_all "hearings") empty_world).2).
  set (w1 := (await (batchInsert accepts_all "hearings"
                       [[("case_id", Js.Num 1)]] 1) w).2).
  assert (H1 : await (batchInsert accepts_all "hearings"
                        [[("case_id", Js.Num 1)]] 1) w
               = (Fulfilled Js.Undefined, w1)).
  { vm_compute. reflexivity. }
  assert (H2 : await (batchInsert accepts_all "hearings"
                        [[("case_id", Js.Num 2)]] 1) w1
               = (Fulfilled Js.Undefined,
                  (await (batchInsert accepts_all "hearings"
                            [[("case_id", Js.Num 2)]] 1) w1).2)).
  { vm_compute. reflexivity. }
  exact (batchInsert_twice_appends_both accepts_all "hearings"
           [[("case_id", Js.Num 1)]] [[("case_id", Js.Num 2)]] 1 1
           w w1 _ Js.Undefined Js.Undefined H1 H2).
Defined.
